(** * OmniProx: proxy-fleet commands of the multi-cloud proxy manager

    A shallow embedding of the command layer of OmniProx
    ([omniprox/core/base.py], [omniprox/providers/cloudflare.py],
    [omniprox/providers/azure.py], [omniprox/core/utils.py],
    [omniprox/cli.py]) and the properties of the fleet life cycle that
    its specification states.

    The Python methods are written in a state-and-exception monad over
    the fields of the provider object and the files it owns.  Everything
    the process reads from outside (HTTP replies, generated names, the
    clock, the terminal) comes from an environment [env]; properties are
    stated for every environment. *)

From Stdlib Require Import ZArith String Ascii Bool Lia.
From stdpp Require Import base gmap sets list strings pretty.

(** ** Python values and exceptions *)

Module Py.

(** The exception classes the handlers of the program tell apart.
    [KeyboardInterrupt] derives from [BaseException] only: a clause
    [except Exception] lets it through. *)
Inductive exn :=
| RequestException   (* requests.RequestException and its subclasses *)
| EOFError
| KeyboardInterrupt
| ImportError
| OtherException.    (* any other subclass of Exception *)

#[global] Instance exn_eq_dec : EqDecision exn.
Proof. solve_decision. Defined.

Definition is_Exception (e : exn) : bool :=
  match e with KeyboardInterrupt => false | _ => true end.

Definition is_RequestException (e : exn) : bool :=
  match e with RequestException => true | _ => false end.

Definition is_EOF_or_Interrupt (e : exn) : bool :=
  match e with EOFError | KeyboardInterrupt => true | _ => false end.

Inductive outcome (A : Type) :=
| Ret (a : A)
| Raise (e : exn).
Arguments Ret {A} a.
Arguments Raise {A} e.

(** Truth value of a string and of an optional string ([None] and the
    empty string are false). *)
Definition truthy (s : string) : bool := bool_decide (s ≠ "").

Definition truthy_opt (o : option string) : bool :=
  match o with Some s => truthy s | None => false end.

(** [str.isspace] on the ASCII range. *)
Definition is_space (c : ascii) : bool :=
  let n := nat_of_ascii c in
  ((9 <=? n) && (n <=? 13)) || ((28 <=? n) && (n <=? 32)).

Fixpoint lstrip_with (p : ascii → bool) (s : string) : string :=
  match s with
  | EmptyString => EmptyString
  | String c r => if p c then lstrip_with p r else s
  end.

Fixpoint rstrip_with (p : ascii → bool) (s : string) : string :=
  match s with
  | EmptyString => EmptyString
  | String c r =>
      let r' := rstrip_with p r in
      if p c && bool_decide (r' = "") then EmptyString else String c r'
  end.

(** [s.strip()] *)
Definition strip (s : string) : string :=
  rstrip_with is_space (lstrip_with is_space s).

(** [s.rstrip('/')] *)
Definition rstrip_slash (s : string) : string :=
  rstrip_with (λ c, bool_decide (c = "/"%char)) s.

Fixpoint endswith_slash (s : string) : bool :=
  match s with
  | EmptyString => false
  | String c EmptyString => bool_decide (c = "/"%char)
  | String _ r => endswith_slash r
  end.

Definition lower_char (c : ascii) : ascii :=
  let n := nat_of_ascii c in
  if (65 <=? n) && (n <=? 90) then ascii_of_nat (n + 32) else c.

Fixpoint lower (s : string) : string :=
  match s with
  | EmptyString => EmptyString
  | String c r => String (lower_char c) (lower r)
  end.

(** [name.startswith(prefixes)] with a tuple of prefixes. *)
Definition startswith_any (prefixes : list string) (s : string) : bool :=
  existsb (λ p, String.prefix p s) prefixes.

End Py.
Export Py.

(** ** omniprox/core/utils.py *)

Module Utils.

(** [normalize_url]: a URL that ends in a slash loses all its trailing
    slashes; [None] and the empty string are returned unchanged. *)
Definition normalize_url (url : string) : string :=
  if truthy url && endswith_slash url then rstrip_slash url else url.

(** The first [n] characters of a string. *)
Fixpoint take_str (n : nat) (s : string) : string :=
  match n, s with
  | S n', String c r => String c (take_str n' r)
  | _, _ => EmptyString
  end.

(** [text[:k]]: a negative bound counts from the end of the string. *)
Definition slice_to (text : string) (k : Z) : string :=
  if (k <? 0)%Z
  then take_str (Z.to_nat (Z.of_nat (String.length text) + k)) text
  else take_str (Z.to_nat k) text.

(** [truncate_text] *)
Definition truncate_text (text : string) (max_length : Z) : string :=
  if (max_length <? Z.of_nat (String.length text))%Z
  then slice_to text (max_length - 3) +:+ "..."
  else text.

End Utils.

(** ** Methods as computations: state and exceptions *)

Module Monad.

(** A method body over a state [S]: it returns or raises, and leaves a
    state behind in both cases. *)
Definition ST (S A : Type) : Type := S → outcome A * S.

Section Ops.
Context {S : Type}.

Definition ret {A} (a : A) : ST S A := λ w, (Ret a, w).

Definition raise {A} (e : exn) : ST S A := λ w, (Raise e, w).

Definition bind {A B} (m : ST S A) (k : A → ST S B) : ST S B :=
  λ w, match m w with
       | (Ret a, w') => k a w'
       | (Raise e, w') => (Raise e, w')
       end.

(** [try: m except <classes>: h]: the handler runs in the state the
    exception left behind. *)
Definition try_except {A} (m : ST S A) (handles : exn → bool)
    (h : exn → ST S A) : ST S A :=
  λ w, match m w with
       | (Ret a, w') => (Ret a, w')
       | (Raise e, w') => if handles e then h e w' else (Raise e, w')
       end.

Definition get : ST S S := λ w, (Ret w, w).

Definition modify (f : S → S) : ST S unit := λ w, (Ret tt, f w).

End Ops.

Declare Scope py_scope.
Delimit Scope py_scope with py.
Notation "x <- m ;; k" := (bind m (λ x, k))
  (at level 100, m at next level, k at level 200, right associativity) : py_scope.
Notation "m ;; k" := (bind m (λ _, k))
  (at level 100, k at level 200, right associativity) : py_scope.
Open Scope py_scope.

(** Loop control: the body of a [for] either falls through to the next
    iteration ([continue] included) or executes [return v]. *)
Inductive ctl (A : Type) :=
| Next
| Return (v : A).
Arguments Next {A}.
Arguments Return {A} v.

Fixpoint for_each {S A B} (body : A → ST S (ctl B)) (l : list A) : ST S (ctl B) :=
  match l with
  | [] => ret Next
  | x :: rest =>
      c <- body x ;;
      match c with
      | Next => for_each body rest
      | Return v => ret (Return v)
      end
  end.

(** A [for] that accumulates a value and has no [return] inside. *)
Fixpoint for_acc {S A T} (body : T → A → ST S T) (l : list A) (s : T) : ST S T :=
  match l with
  | [] => ret s
  | x :: rest => s' <- body s x ;; for_acc body rest s'
  end.

End Monad.
Export Monad.

(** ** The provider object, its files and its environment *)

Module Runtime.

(** An endpoint record is a Python dict with string keys and values, as
    it is stored in [cloudflare_endpoints.json]. *)
Abbreviation endpoint := (gmap string string).

(** An entry of [created_workers]. *)
Record worker := { wk_name : string; wk_url : string }.

Inductive meth := GET | PUT | POST | DELETE.

Record request := { rq_meth : meth; rq_url : string }.

(** One entry of the [result] array of the worker-scripts listing. *)
Record script := { sc_id : option string; sc_created_on : option string }.

(** An HTTP response: the status code, the body text and the fields of
    the decoded JSON body that the program reads
    ([data.get("success")], [data["result"].get("subdomain")] when
    [data.get("result")] is true, and the entries of
    [data.get("result", [])]). *)
Record response := {
  status_code : Z;
  text : string;
  json_success : bool;
  json_subdomain : option string;
  json_scripts : list script
}.

Inductive reply :=
| Resp (r : response)
| Exc (e : exn).   (* the call, or decoding its body, raises *)

(** The lines of standard output that the properties below refer to;
    every other message is a [Msg]. *)
Inductive line :=
| Msg (s : string)
| WarnLimited (requested : Z)
| BatchCreated (n : nat)
| BatchFailed (n : nat)
| BatchError
| DeletedWorker (name : string)
| DeleteFailed (body : string)
| CleanupComplete (deleted failed : nat)
| ProbeOK (ip : string)
| ProbeWarning (status : Z)
| ProbeFailed
| ProxiesCreated (n : nat)
| SuccessfulResponses (n : nat)
| UniqueIPs (n : nat)
| RotationWorking (n : nat)
| NoRotation (ip : option string)
| NoSuccessfulResponses
| ProxyTestError
| Unsupported.

(** What the process obtains from outside. *)
Record env := {
  api_token : string;                (* profile: api_token *)
  account_id : string;               (* profile: account_id *)
  http : nat → request → reply;      (* reply to the k-th HTTP call *)
  worker_name : nat → string;        (* k-th result of _generate_worker_name *)
  strftime : nat → string;           (* time.strftime at the k-th creation *)
  stdin_isatty : bool;
  input : nat → outcome string;      (* k-th call of input() *)
  fs_writable : bool                 (* open(endpoints_file, 'w') succeeds *)
}.

(** The mutable state: attributes of the provider object, the endpoints
    file, the local variables [created_workers] and [failed_count] of
    [create] (read by its exception handler), and the traces of the
    effects. *)
Record world := {
  url : option string;                       (* self.url *)
  api_id : option string;                    (* self.api_id *)
  number : option Z;                         (* self.args.number, if set *)
  worker_subdomain_cache : option string;    (* self._worker_subdomain *)
  endpoints_file : option (list endpoint);   (* None: absent or undecodable *)
  created_workers : list worker;
  failed_count : nat;
  net_log : list request;                    (* HTTP calls issued, oldest first *)
  names_drawn : nat;
  inputs_read : nat;
  stdout : list line                         (* oldest first *)
}.

Definition set_url (v : option string) (w : world) : world :=
  {| url := v; api_id := api_id w; number := number w;
     worker_subdomain_cache := worker_subdomain_cache w;
     endpoints_file := endpoints_file w;
     created_workers := created_workers w; failed_count := failed_count w;
     net_log := net_log w; names_drawn := names_drawn w;
     inputs_read := inputs_read w; stdout := stdout w |}.

Definition set_number (v : option Z) (w : world) : world :=
  {| url := url w; api_id := api_id w; number := v;
     worker_subdomain_cache := worker_subdomain_cache w;
     endpoints_file := endpoints_file w;
     created_workers := created_workers w; failed_count := failed_count w;
     net_log := net_log w; names_drawn := names_drawn w;
     inputs_read := inputs_read w; stdout := stdout w |}.

Definition set_worker_subdomain_cache (v : option string) (w : world) : world :=
  {| url := url w; api_id := api_id w; number := number w;
     worker_subdomain_cache := v;
     endpoints_file := endpoints_file w;
     created_workers := created_workers w; failed_count := failed_count w;
     net_log := net_log w; names_drawn := names_drawn w;
     inputs_read := inputs_read w; stdout := stdout w |}.

Definition set_endpoints_file (v : option (list endpoint)) (w : world) : world :=
  {| url := url w; api_id := api_id w; number := number w;
     worker_subdomain_cache := worker_subdomain_cache w;
     endpoints_file := v;
     created_workers := created_workers w; failed_count := failed_count w;
     net_log := net_log w; names_drawn := names_drawn w;
     inputs_read := inputs_read w; stdout := stdout w |}.

Definition set_created_workers (v : list worker) (w : world) : world :=
  {| url := url w; api_id := api_id w; number := number w;
     worker_subdomain_cache := worker_subdomain_cache w;
     endpoints_file := endpoints_file w;
     created_workers := v; failed_count := failed_count w;
     net_log := net_log w; names_drawn := names_drawn w;
     inputs_read := inputs_read w; stdout := stdout w |}.

Definition set_failed_count (v : nat) (w : world) : world :=
  {| url := url w; api_id := api_id w; number := number w;
     worker_subdomain_cache := worker_subdomain_cache w;
     endpoints_file := endpoints_file w;
     created_workers := created_workers w; failed_count := v;
     net_log := net_log w; names_drawn := names_drawn w;
     inputs_read := inputs_read w; stdout := stdout w |}.

Definition set_net_log (v : list request) (w : world) : world :=
  {| url := url w; api_id := api_id w; number := number w;
     worker_subdomain_cache := worker_subdomain_cache w;
     endpoints_file := endpoints_file w;
     created_workers := created_workers w; failed_count := failed_count w;
     net_log := v; names_drawn := names_drawn w;
     inputs_read := inputs_read w; stdout := stdout w |}.

Definition set_names_drawn (v : nat) (w : world) : world :=
  {| url := url w; api_id := api_id w; number := number w;
     worker_subdomain_cache := worker_subdomain_cache w;
     endpoints_file := endpoints_file w;
     created_workers := created_workers w; failed_count := failed_count w;
     net_log := net_log w; names_drawn := v;
     inputs_read := inputs_read w; stdout := stdout w |}.

Definition set_inputs_read (v : nat) (w : world) : world :=
  {| url := url w; api_id := api_id w; number := number w;
     worker_subdomain_cache := worker_subdomain_cache w;
     endpoints_file := endpoints_file w;
     created_workers := created_workers w; failed_count := failed_count w;
     net_log := net_log w; names_drawn := names_drawn w;
     inputs_read := v; stdout := stdout w |}.

Definition set_stdout (v : list line) (w : world) : world :=
  {| url := url w; api_id := api_id w; number := number w;
     worker_subdomain_cache := worker_subdomain_cache w;
     endpoints_file := endpoints_file w;
     created_workers := created_workers w; failed_count := failed_count w;
     net_log := net_log w; names_drawn := names_drawn w;
     inputs_read := inputs_read w; stdout := v |}.

Abbreviation M := (ST world).

Definition print (l : line) : M unit :=
  modify (λ w, set_stdout (stdout w ++ [l]) w).

(** *** Primitive effects *)

Section Primitives.
Context (E : env).

(** [requests.<method>(url, ...)]: the call is logged, then its reply
    is returned or its exception raised. *)
Definition http_call (m : meth) (u : string) : M response :=
  λ w, let rq := {| rq_meth := m; rq_url := u |} in
       let w' := set_net_log (net_log w ++ [rq]) w in
       match http E (length (net_log w)) rq with
       | Resp r => (Ret r, w')
       | Exc e => (Raise e, w')
       end.

(** [response.raise_for_status()]: [HTTPError], a [RequestException],
    for the client and server error codes. *)
Definition raise_for_status (r : response) : M unit :=
  if (400 <=? status_code r)%Z && (status_code r <? 600)%Z
  then raise RequestException else ret tt.

(** [input(prompt)] *)
Definition input_line : M string :=
  λ w, let w' := set_inputs_read (S (inputs_read w)) w in
       match input E (inputs_read w) with
       | Ret s => (Ret s, w')
       | Raise e => (Raise e, w')
       end.

End Primitives.

End Runtime.

(** ** omniprox/core/base.py: [BaseOmniProx] *)

Module Base.
Import Runtime.

(** The methods the dispatcher looks up on a provider object. *)
Record provider := {
  p_create : M bool;
  p_list : M bool;
  p_delete : M bool;
  p_update : M bool;
  p_status : M bool;
  p_usage : M bool;
  p_cleanup : M bool;
  p_proxytest : M bool
}.

Definition update : M bool := print Unsupported ;; ret false.
Definition status : M bool := print Unsupported ;; ret false.
Definition usage : M bool := print Unsupported ;; ret false.

(** [_get_last_created_proxy_url] of the base class. *)
Definition _get_last_created_proxy_url : M (option string) := ret None.

Definition command_map (P : provider) (command : string) : option (M bool) :=
  if bool_decide (command = "create") then Some (p_create P)
  else if bool_decide (command = "list") then Some (p_list P)
  else if bool_decide (command = "delete") then Some (p_delete P)
  else if bool_decide (command = "update") then Some (p_update P)
  else if bool_decide (command = "status") then Some (p_status P)
  else if bool_decide (command = "usage") then Some (p_usage P)
  else if bool_decide (command = "cleanup") then Some (p_cleanup P)
  else if bool_decide (command = "proxytest") then Some (p_proxytest P)
  else None.

(** [execute]: the handler logs the exception and re-raises it. *)
Definition execute (P : provider) (command : option string) : M bool :=
  match command ≫= command_map P with
  | Some method => try_except method is_Exception (λ e, raise e)
  | None => print Unsupported ;; ret false
  end.

Section Validation.
(** [urllib.parse.urlparse]: the scheme and the network location of a
    URL, or an exception. *)
Context (urlparse : string → outcome (string * string)).

Definition validate_url (u : option string) : bool :=
  match u with
  | None => false
  | Some s =>
      if negb (truthy s) then false
      else match urlparse s with
           | Ret (scheme, netloc) => truthy scheme && truthy netloc
           | Raise _ => false   (* except Exception *)
           end
  end.

Definition require_api_id : M bool :=
  w <- get ;;
  if negb (truthy_opt (api_id w))
  then print (Msg "Error: --api_id is required for this command") ;; ret false
  else ret true.

Definition require_url : M bool :=
  w <- get ;;
  if negb (truthy_opt (url w))
  then print (Msg "Error: --url is required for this command") ;; ret false
  else if negb (validate_url (url w))
  then print (Msg "Error: Invalid URL format") ;; ret false
  else ret true.

End Validation.

Section ProxyTest.
Context (E : env).

Definition test_url : string := "https://ipinfo.io/ip".
Definition test_count : nat := 3.

(** Step 1: the creation loop.  [create_one] is [_create_single_proxy]
    when the object has it and [create] otherwise. *)
Definition create_test_proxy (create_one : M bool)
    (get_last_url : M (option string))
    (created_proxies : list string) (i : nat) : M (list string) :=
  result <- create_one ;;
  if result then
    proxy_url <- get_last_url ;;
    if truthy_opt proxy_url
    then ret (created_proxies ++ [default "" proxy_url])
    else ret created_proxies
  else ret created_proxies.

(** Step 2: one request per created proxy; the identifiers go into the
    set [unique_ips]. *)
Definition probe (unique_ips : gset string) (proxy_url : string) : M (gset string) :=
  try_except
    (response <- http_call E GET proxy_url ;;
     if (status_code response =? 200)%Z then
       let ip := strip (text response) in
       print (ProbeOK ip) ;;
       ret (unique_ips ∪ {[ ip ]})
     else
       print (ProbeWarning (status_code response)) ;;
       ret unique_ips)
    is_Exception
    (λ _, print ProbeFailed ;; ret unique_ips).

(** Step 3: the summary and the verdict. *)
Definition results_summary (created_proxies : list string)
    (unique_ips : gset string) : M unit :=
  print (ProxiesCreated (length created_proxies)) ;;
  print (SuccessfulResponses (size unique_ips)) ;;
  print (UniqueIPs (size unique_ips)) ;;
  if 1 <? size unique_ips then print (RotationWorking (size unique_ips))
  else if size unique_ips =? 1 then print (NoRotation (head (elements unique_ips)))
  else print NoSuccessfulResponses.

Definition offer_cleanup (cleanup : M bool) : M unit :=
  try_except
    (answer <- input_line E ;;
     if bool_decide (lower (strip answer) = "y")
     then _ <- cleanup ;; ret tt
     else ret tt)
    is_EOF_or_Interrupt
    (λ _, print (Msg "Skipping cleanup (non-interactive mode)")).

(** The body of the outer [try] of [proxytest]. *)
Definition proxytest_body (create_one : M bool)
    (get_last_url : M (option string)) (cleanup : M bool)
    (original_url : option string) : M bool :=
  modify (set_url (Some test_url)) ;;
  created_proxies <- for_acc (create_test_proxy create_one get_last_url)
                             (seq 0 test_count) [] ;;
  unique_ips <- for_acc probe created_proxies ∅ ;;
  results_summary created_proxies unique_ips ;;
  offer_cleanup cleanup ;;
  modify (set_url original_url) ;;
  ret (0 <? size unique_ips).

Definition proxytest (create : M bool) (_create_single_proxy : option (M bool))
    (get_last_url : M (option string)) (cleanup : M bool) : M bool :=
  w <- get ;;
  let original_url := url w in
  try_except
    (proxytest_body (default create _create_single_proxy) get_last_url cleanup
                    original_url)
    is_Exception
    (λ _, print ProxyTestError ;; modify (set_url original_url) ;; ret false).

End ProxyTest.

End Base.

(** ** omniprox/providers/cloudflare.py: [CloudflareProvider] *)

Module Cloudflare.
Import Runtime.

Definition base_url : string := "https://api.cloudflare.com/client/v4".

(** Prefixes used by [_generate_worker_name]. *)
Definition omniprox_prefixes : list string :=
  ["proxy-"; "worker-"; "api-"; "service-"; "app-"; "edge-"; "omniprox-"].

(** The update-or-append of [_save_endpoint]: the first stored record
    with the same [name] is replaced in place, otherwise the record is
    appended. *)
Fixpoint upsert (new : endpoint) (endpoints : list endpoint) : list endpoint :=
  match endpoints with
  | [] => [new]
  | ep :: rest =>
      if bool_decide (ep !! "name" = new !! "name")
      then new :: rest
      else ep :: upsert new rest
  end.

(** The record [create] stores for a new worker. *)
Definition new_endpoint (worker_name worker_url target_url created_at : string) : endpoint :=
  {[ "name" := worker_name; "url" := worker_url; "target_url" := target_url;
     "created_at" := created_at; "provider" := "cloudflare" ]}.

(** The record [sync_endpoints] builds from a listed script. *)
Definition remote_endpoint (subdomain : string) (sc : script) : endpoint :=
  let name := default "" (sc_id sc) in
  {[ "name" := name;
     "url" := "https://" +:+ name +:+ "." +:+ subdomain +:+ ".workers.dev";
     "created_at" := default "unknown" (sc_created_on sc);
     "provider" := "cloudflare" ]}.

Definition is_omniprox_script (sc : script) : bool :=
  startswith_any omniprox_prefixes (default "" (sc_id sc)).

(** [max(endpoints, key=lambda x: x.get('created_at', ''))]: the first
    record whose key is maximal. *)
Definition created_at_key (ep : endpoint) : string := default "" (ep !! "created_at").

Fixpoint max_by_created_at (best : endpoint) (l : list endpoint) : endpoint :=
  match l with
  | [] => best
  | ep :: rest =>
      if String.ltb (created_at_key best) (created_at_key ep)
      then max_by_created_at ep rest
      else max_by_created_at best rest
  end.

Section WithEnv.
Context (E : env).

Definition account_url : string := base_url +:+ "/accounts/" +:+ account_id E.
Definition subdomain_url : string := account_url +:+ "/workers/subdomain".
Definition scripts_url : string := account_url +:+ "/workers/scripts".
Definition script_url (name : string) : string := scripts_url +:+ "/" +:+ name.

(** *** The local cache of endpoints *)

Definition _load_endpoints : M (list endpoint) :=
  w <- get ;; ret (default [] (endpoints_file w)).

(** An [IOError] on opening the file is logged and swallowed. *)
Definition _save_all_endpoints (endpoints : list endpoint) : M unit :=
  if fs_writable E then modify (set_endpoints_file (Some endpoints)) else ret tt.

Definition _save_endpoint (new : endpoint) : M unit :=
  endpoints <- _load_endpoints ;;
  _save_all_endpoints (upsert new endpoints).

Definition _remove_endpoint (name : string) : M unit :=
  endpoints <- _load_endpoints ;;
  _save_all_endpoints (filter (λ ep, ep !! "name" ≠ Some name) endpoints).

(** *** Credentials and the workers subdomain *)

Definition init_provider : M bool :=
  if negb (truthy (api_token E)) || negb (truthy (account_id E)) then ret false
  else
    try_except
      (response <- http_call E GET account_url ;;
       if (status_code response =? 401)%Z then ret false
       else if (status_code response =? 403)%Z then ret false
       else if negb (status_code response =? 200)%Z then ret false
       else ret true)
      is_RequestException
      (λ _, ret false).

(** The subdomain a response of the subdomain endpoint carries, if it
    is a usable one. *)
Definition subdomain_of (response : response) : option string :=
  if (status_code response =? 200)%Z && json_success response
     && truthy_opt (json_subdomain response)
  then json_subdomain response else None.

(** The property [worker_subdomain]. *)
Definition worker_subdomain : M (option string) :=
  w <- get ;;
  if truthy_opt (worker_subdomain_cache w) then ret (worker_subdomain_cache w)
  else
    try_except
      (response <- http_call E GET subdomain_url ;;
       match subdomain_of response with
       | Some subdomain =>
           modify (set_worker_subdomain_cache (Some subdomain)) ;;
           ret (Some subdomain)
       | None => ret None
       end)
      is_RequestException
      (λ _, ret None).

Definition _ensure_subdomain : M (option string) :=
  subdomain <- worker_subdomain ;;
  if truthy_opt subdomain then ret subdomain
  else
    try_except
      (response <- http_call E GET subdomain_url ;;
       match subdomain_of response with
       | Some existing =>
           modify (set_worker_subdomain_cache (Some existing)) ;;
           ret (Some existing)
       | None =>
           response <- http_call E PUT subdomain_url ;;
           if (status_code response =? 200)%Z || (status_code response =? 409)%Z
           then
             response <- http_call E GET subdomain_url ;;
             match subdomain_of response with
             | Some subdomain =>
                 modify (set_worker_subdomain_cache (Some subdomain)) ;;
                 ret (Some subdomain)
             | None => ret None
             end
           else ret None
       end)
      is_RequestException
      (λ _, ret None).

Definition _generate_worker_name : M string :=
  λ w, (Ret (worker_name E (names_drawn w)), set_names_drawn (S (names_drawn w)) w).

(** [time.strftime('%Y-%m-%d %H:%M:%S')] *)
Definition now : M string :=
  w <- get ;; ret (strftime E (names_drawn w)).

(** *** create *)

Definition count_failure : M unit :=
  modify (λ w, set_failed_count (S (failed_count w)) w).

(** The number of proxies to create: values below 1 become 1, values
    above 10 become 10 after a warning. *)
Definition requested_number : M Z :=
  w <- get ;;
  let num_proxies := default 1%Z (number w) in
  if (num_proxies <? 1)%Z then ret 1%Z
  else if (10 <? num_proxies)%Z then print (WarnLimited num_proxies) ;; ret 10%Z
  else ret num_proxies.

(** One iteration of the creation loop, with its own [try]. *)
Definition create_attempt (target_url subdomain : string) (num_proxies : Z)
    (i : nat) : M (ctl bool) :=
  try_except
    (worker_name <- _generate_worker_name ;;
     response <- http_call E PUT (script_url worker_name) ;;
     if (status_code response =? 401)%Z then
       if (num_proxies =? 1)%Z then ret (Return false)
       else count_failure ;; ret Next
     else if (status_code response =? 403)%Z then
       if (num_proxies =? 1)%Z then ret (Return false)
       else count_failure ;; ret Next
     else
       raise_for_status response ;;
       try_except
         (_ <- http_call E POST (script_url worker_name +:+ "/subdomain") ;; ret tt)
         is_RequestException
         (λ _, ret tt) ;;
       let worker_url := "https://" +:+ worker_name +:+ "." +:+ subdomain +:+ ".workers.dev" in
       created_at <- now ;;
       _save_endpoint (new_endpoint worker_name worker_url target_url created_at) ;;
       modify (λ w, set_created_workers
                      (created_workers w ++ [{| wk_name := worker_name; wk_url := worker_url |}]) w) ;;
       ret Next)
    is_RequestException
    (λ _, count_failure ;;
          if (num_proxies =? 1)%Z then ret (Return false) else ret Next).

Definition batch_summary (num_proxies : Z) : M unit :=
  if (1 <? num_proxies)%Z then
    w <- get ;;
    print (BatchCreated (length (created_workers w))) ;;
    if 0 <? failed_count w then print (BatchFailed (failed_count w)) else ret tt
  else ret tt.

Definition any_created : M bool :=
  w <- get ;; ret (0 <? length (created_workers w)).

Definition create : M bool :=
  ok <- init_provider ;;
  if negb ok then ret false
  else
    w <- get ;;
    if negb (truthy_opt (url w))
    then print (Msg "Error: --url is required for create command") ;; ret false
    else
      let target_url := Utils.normalize_url (default "" (url w)) in
      num_proxies <- requested_number ;;
      modify (set_created_workers []) ;;
      modify (set_failed_count 0) ;;
      try_except
        (subdomain <- _ensure_subdomain ;;
         if negb (truthy_opt subdomain)
         then print (Msg "Error: Could not configure workers subdomain") ;; ret false
         else
           c <- for_each (create_attempt target_url (default "" subdomain) num_proxies)
                         (seq 0 (Z.to_nat num_proxies)) ;;
           match c with
           | Return v => ret v
           | Next => batch_summary num_proxies ;; any_created
           end)
        is_Exception
        (λ _, print BatchError ;; any_created).

Definition _create_single_proxy : M bool :=
  w <- get ;;
  let original_args := number w in
  (if bool_decide (is_Some (number w)) then modify (set_number (Some 1%Z)) else ret tt) ;;
  result <- create ;;
  (if bool_decide (is_Some original_args) then modify (set_number original_args) else ret tt) ;;
  ret result.

(** *** sync, list, delete, cleanup, status, usage *)

Definition sync_endpoints : M (list endpoint) :=
  try_except
    (subdomain <- _ensure_subdomain ;;
     if negb (truthy_opt subdomain) then _load_endpoints
     else
       response <- http_call E GET scripts_url ;;
       raise_for_status response ;;
       let remote_workers :=
         remote_endpoint (default "" subdomain)
           <$> filter (λ sc, is_omniprox_script sc = true) (json_scripts response) in
       _save_all_endpoints remote_workers ;;
       ret remote_workers)
    is_RequestException
    (λ _, _load_endpoints).

Definition _get_last_created_proxy_url : M (option string) :=
  try_except
    (endpoints <- sync_endpoints ;;
     match endpoints with
     | [] => ret None
     | ep :: rest =>
         let latest_worker := max_by_created_at ep rest in
         let worker_url := default "" (latest_worker !! "url") in
         if truthy worker_url
         then ret (Some (worker_url +:+ "?url=https://ipinfo.io/ip"))
         else ret None
     end)
    is_Exception
    (λ _, ret None).

Definition list : M bool :=
  ok <- init_provider ;;
  if negb ok then ret false
  else
    try_except
      (endpoints <- sync_endpoints ;;
       match endpoints with
       | [] => print (Msg "No OmniProx Cloudflare Workers found") ;; ret true
       | _ => print (Msg "OmniProx Cloudflare Workers") ;; ret true
       end)
      is_Exception
      (λ _, ret false).

Definition delete : M bool :=
  ok <- init_provider ;;
  if negb ok then ret false
  else
    w <- get ;;
    if negb (truthy_opt (api_id w))
    then print (Msg "Error: --api_id is required for delete command") ;; ret false
    else
      let name := default "" (api_id w) in
      try_except
        (response <- http_call E DELETE (script_url name) ;;
         if (status_code response =? 200)%Z || (status_code response =? 404)%Z
         then
           print (DeletedWorker name) ;;
           _remove_endpoint name ;;
           ret true
         else
           print (DeleteFailed (text response)) ;;
           ret false)
        is_RequestException
        (λ _, ret false).

(** One iteration of the deletion loop of [cleanup]; the accumulator is
    the pair of counters [(deleted, failed)]. *)
Definition cleanup_one (counts : nat * nat) (ep : endpoint) : M (nat * nat) :=
  let name := default "" (ep !! "name") in
  if startswith_any omniprox_prefixes name then
    try_except
      (response <- http_call E DELETE (script_url name) ;;
       if (status_code response =? 200)%Z || (status_code response =? 404)%Z
       then ret (S counts.1, counts.2)
       else ret (counts.1, S counts.2))
      is_RequestException
      (λ _, ret (counts.1, S counts.2))
  else ret counts.

Definition cleanup : M bool :=
  ok <- init_provider ;;
  if negb ok then ret false
  else
    confirm <- (if negb (stdin_isatty E) then ret "yes" else input_line E) ;;
    if bool_decide (lower confirm ≠ "yes")
    then print (Msg "Cleanup cancelled") ;; ret false
    else
      try_except
        (endpoints <- sync_endpoints ;;
         match endpoints with
         | [] => print (Msg "No workers to clean up") ;; ret true
         | _ =>
             counts <- for_acc cleanup_one endpoints (0, 0) ;;
             modify (set_endpoints_file None) ;;
             print (CleanupComplete counts.1 counts.2) ;;
             ret true
         end)
        is_Exception
        (λ _, ret false).

Definition status : M bool :=
  ok <- init_provider ;;
  if negb ok then ret false
  else
    try_except
      (response <- http_call E GET account_url ;;
       if (status_code response =? 200)%Z then
         _ <- worker_subdomain ;;
         _ <- sync_endpoints ;;
         ret true
       else ret false)
      is_RequestException
      (λ _, ret false).

Definition usage : M bool :=
  ok <- init_provider ;;
  if negb ok then ret false else ret true.

(** The command table of a Cloudflare provider object. *)
Definition provider : Base.provider :=
  {| Base.p_create := create;
     Base.p_list := list;
     Base.p_delete := delete;
     Base.p_update := Base.update;
     Base.p_status := status;
     Base.p_usage := usage;
     Base.p_cleanup := cleanup;
     Base.p_proxytest :=
       Base.proxytest E create (Some _create_single_proxy)
                      _get_last_created_proxy_url cleanup |}.

End WithEnv.

End Cloudflare.

(** ** omniprox/providers/azure.py: the container pool of [AzureProvider.create] *)

Module Azure.

(** [result.ip_address] of a deployed container group. *)
Record ip_address := { ip : string; fqdn : option string }.

(** An entry of [container_pool]. *)
Record container_info := {
  ci_name : string;
  ci_ip : string;
  ci_fqdn : string;
  ci_url : string;
  ci_target : string
}.

(** What the Azure SDK and the file system answer. *)
Record env := {
  init_ok : bool;                               (* init_provider() *)
  resource_group_ready : outcome unit;          (* resource_groups.get, else create_or_update *)
  unique_suffix : nat → string;                 (* k-th get_unique_suffix() *)
  deploy : nat → outcome (option ip_address);   (* begin_create_or_update(..).result() of container i *)
  config_writable : bool;                       (* open(config_path, 'w') succeeds *)
  rotation_client : outcome unit                (* create_rotation_client() *)
}.

Record state := {
  url : option string;                    (* self.url *)
  pool_size : Z;                          (* self.pool_size *)
  container_pool : list container_info;   (* self.container_pool *)
  profile_pool : list container_info;     (* container_pool as stored in profiles.ini *)
  suffixes_drawn : nat
}.

Definition set_container_pool (v : list container_info) (s : state) : state :=
  {| url := url s; pool_size := pool_size s; container_pool := v;
     profile_pool := profile_pool s; suffixes_drawn := suffixes_drawn s |}.

Definition set_profile_pool (v : list container_info) (s : state) : state :=
  {| url := url s; pool_size := pool_size s; container_pool := container_pool s;
     profile_pool := v; suffixes_drawn := suffixes_drawn s |}.

Definition set_suffixes_drawn (v : nat) (s : state) : state :=
  {| url := url s; pool_size := pool_size s; container_pool := container_pool s;
     profile_pool := profile_pool s; suffixes_drawn := v |}.

Definition lift {A} (o : outcome A) : ST state A := λ s, (o, s).

Section WithEnv.
Context (E : env).

Definition get_unique_suffix : ST state string :=
  λ s, (Ret (unique_suffix E (suffixes_drawn s)),
        set_suffixes_drawn (S (suffixes_drawn s)) s).

(** [save_pool_config]: the pool in memory is written into the profile. *)
Definition save_pool_config : ST state unit :=
  if config_writable E
  then modify (λ s, set_profile_pool (container_pool s) s)
  else raise OtherException.

(** One iteration of the loop over [range(1, pool_size + 1)]. *)
Definition deploy_container (target : string) (i : nat) : ST state unit :=
  name_suffix <- get_unique_suffix ;;
  _ <- get_unique_suffix ;;
  let container_group_name := "omniprox-pool-" +:+ pretty i +:+ "-" +:+ name_suffix in
  try_except
    (result <- lift (deploy E i) ;;
     match result with
     | Some addr =>
         let host := if truthy_opt (fqdn addr) then default "" (fqdn addr) else ip addr in
         modify (λ s, set_container_pool
                        (container_pool s ++
                           [{| ci_name := container_group_name; ci_ip := ip addr;
                               ci_fqdn := host; ci_url := "http://" +:+ host;
                               ci_target := target |}]) s)
     | None => ret tt
     end)
    is_Exception
    (λ _, ret tt).

Definition pool_loop (target : string) (iterations : list nat) : ST state unit :=
  for_acc (λ _ i, deploy_container target i) iterations tt.

Definition create : ST state bool :=
  if negb (init_ok E) then ret false
  else
    s <- get ;;
    if negb (truthy_opt (url s)) then ret false
    else
      let target := default "" (url s) in
      try_except
        (lift (resource_group_ready E) ;;
         modify (set_container_pool []) ;;
         pool_loop target (seq 1 (Z.to_nat (pool_size s))) ;;
         save_pool_config ;;
         s' <- get ;;
         match container_pool s' with
         | [] => ret false
         | _ => lift (rotation_client E) ;; ret true
         end)
        is_Exception
        (λ _, ret false).

End WithEnv.

(** *** delete *)

(** A container group as [container_groups.list()] reports it: its name
    and the fifth segment of its id, if the id has one. *)
Record group := { g_name : string; g_resource_group : option string }.

(** What the SDK answers to the calls of [delete]. *)
Record delete_env := {
  d_env : env;
  list_groups : outcome (list group);       (* container_groups.list() *)
  begin_delete : string → outcome unit      (* begin_delete(.., name).result() *)
}.

Section Delete.
Context (D : delete_env).

(** The search for the container named [name]: the first group of that
    name is deleted and the search ends. *)
Definition delete_named (name : string) (g : group) : ST state (ctl bool) :=
  if bool_decide (g_name g = name) then
    match g_resource_group g with
    | Some _ => lift (begin_delete D name) ;; ret (Return true)
    | None => raise OtherException     (* IndexError of split('/')[4] *)
    end
  else ret Next.

(** One deletion of the pool loop; the accumulator is [deleted]. *)
Definition delete_pooled (deleted : nat) (c : container_info) : ST state nat :=
  try_except
    (lift (begin_delete D (ci_name c)) ;; ret (S deleted))
    is_Exception
    (λ _, ret deleted).

Definition delete (api_id : option string) : ST state bool :=
  if negb (init_ok (d_env D)) then ret false
  else if truthy_opt api_id then
    try_except
      (groups <- lift (list_groups D) ;;
       c <- for_each (delete_named (default "" api_id)) groups ;;
       match c with
       | Return v => ret v
       | Next => ret false
       end)
      is_Exception
      (λ _, ret false)
  else
    s <- get ;;
    match container_pool s with
    | [] => ret false
    | pool =>
        _ <- for_acc delete_pooled pool 0 ;;
        modify (set_container_pool []) ;;
        save_pool_config (d_env D) ;;
        ret true
    end.

End Delete.

(** *** The rotation client written by [create_rotation_client] *)

(** A [RotatingProxy] object. *)
Record rotating_proxy := { rp_pool : list container_info; current_index : nat }.

(** [RotatingProxy.__init__] *)
Definition new_rotating_proxy (pool : list container_info) : rotating_proxy :=
  {| rp_pool := pool; current_index := 0 |}.

(** [RotatingProxy.get_next_proxy] *)
Definition get_next_proxy : ST rotating_proxy (option string) :=
  p <- get ;;
  match rp_pool p with
  | [] => ret None
  | _ =>
      match rp_pool p !! current_index p with
      | Some c =>
          modify (λ p, {| rp_pool := rp_pool p;
                          current_index := (current_index p + 1) `mod` length (rp_pool p) |}) ;;
          ret (Some (ci_url c))
      | None => raise OtherException     (* IndexError *)
      end
  end.

End Azure.

(** ** Writing the profile and the endpoints file *)

Module Store.

(** The file-system operations a save performs. *)
Inductive fs_op :=
| Truncate (path : string)                 (* open(path, 'w') *)
| Append (path : string) (data : string)   (* f.write(data) *)
| Rename (src dst : string).               (* os.replace(src, dst) *)

Definition apply_op (disk : gmap string string) (op : fs_op) : gmap string string :=
  match op with
  | Truncate path => <[path := ""]> disk
  | Append path data => <[path := default "" (disk !! path) +:+ data]> disk
  | Rename src dst =>
      match disk !! src with
      | Some content => <[dst := content]> (delete src disk)
      | None => disk
      end
  end.

Definition run (ops : list fs_op) (disk : gmap string string) : gmap string string :=
  foldl apply_op disk ops.

(** [with open(path, 'w') as f:] followed by the writes of the
    serialiser ([config.write(f)], [json.dump(endpoints, f, indent=2)]),
    which emits the text [chunks] one after the other. *)
Definition write_file (path : string) (chunks : list string) : list fs_op :=
  Truncate path :: (Append path <$> chunks).

(** [BaseOmniProx.save_profile] *)
Definition save_profile (config_path : string) (chunks : list string) : list fs_op :=
  write_file config_path chunks.

(** [CloudflareProvider._save_all_endpoints] *)
Definition _save_all_endpoints (endpoints_file : string) (chunks : list string) : list fs_op :=
  write_file endpoints_file chunks.

(** The disk when the process is killed after [k] operations of a save. *)
Definition killed_after (k : nat) (ops : list fs_op) (disk : gmap string string) :
    gmap string string :=
  run (take k ops) disk.

Definition text_of (chunks : list string) : string := foldr String.append "" chunks.

Definition is_rename (op : fs_op) : bool :=
  match op with Rename _ _ => true | _ => false end.

End Store.

(** ** omniprox/cli.py and the import of the provider modules *)

Module Cli.

Inductive module_name :=
| core_base | core_utils | providers_gcp | providers_azure
| providers_cloudflare | providers_alibaba.

(** The top-level statements of a module that can fail. *)
Inductive stmt :=
| Import (package : string)                           (* import of a third-party package *)
| FromImport (m : module_name) (names : list string)  (* from <module of the repository> import names *)
| TryImport (packages : list string).                 (* try: imports except ImportError: ... *)

(** The names bound at the top level of omniprox/core/utils.py. *)
Definition utils_names : list string :=
  ["logging"; "sys"; "Path"; "Optional";
   "setup_logging"; "check_provider_availability"; "check_gcp_availability";
   "check_cloudflare_availability"; "check_azure_availability";
   "check_alibaba_availability"; "get_available_providers";
   "print_provider_status"; "normalize_url"; "format_timestamp";
   "truncate_text"; "get_unique_suffix"].

(** The names bound at the top level of omniprox/core/base.py. *)
Definition base_names : list string :=
  ["configparser"; "logging"; "ABC"; "abstractmethod"; "Path"; "Dict"; "Any";
   "Optional"; "tldextract"; "datetime"; "BaseOmniProx"].

Definition names_of (m : module_name) : list string :=
  match m with
  | core_base => base_names
  | core_utils => utils_names
  | providers_gcp => ["GCPProvider"]
  | providers_azure => ["AzureProvider"]
  | providers_cloudflare => ["CloudflareProvider"]
  | providers_alibaba => ["AlibabaProvider"]
  end.

(** The import statements of each module, in source order. *)
Definition body (m : module_name) : list stmt :=
  match m with
  | core_base => [Import "tldextract"]
  | core_utils => []
  | providers_gcp =>
      [FromImport core_base ["BaseOmniProx"];
       FromImport core_utils ["confirm_action"; "normalize_url"];
       TryImport ["google.cloud"; "google.oauth2"; "google.auth"; "google.api_core"]]
  | providers_azure =>
      [FromImport core_base ["BaseOmniProx"];
       FromImport core_utils ["confirm_action"; "get_unique_suffix"];
       TryImport ["azure.identity"; "azure.mgmt.resource";
                  "azure.mgmt.containerinstance"; "azure.core.exceptions"]]
  | providers_cloudflare =>
      [Import "requests";
       FromImport core_base ["BaseOmniProx"];
       FromImport core_utils ["normalize_url"]]
  | providers_alibaba => [FromImport core_base ["BaseOmniProx"]]
  end.

Section Imports.
(** Which third-party packages are installed. *)
Context (installed : string → bool).

Definition exec_stmt (load : module_name → outcome unit) (s : stmt) : outcome unit :=
  match s with
  | Import package => if installed package then Ret tt else Raise ImportError
  | FromImport m names =>
      match load m with
      | Ret _ =>
          if forallb (λ n, bool_decide (n ∈ names_of m)) names
          then Ret tt else Raise ImportError
      | Raise e => Raise e
      end
  | TryImport _ => Ret tt
  end.

Fixpoint exec_body (load : module_name → outcome unit) (b : list stmt) : outcome unit :=
  match b with
  | [] => Ret tt
  | s :: rest =>
      match exec_stmt load s with
      | Ret _ => exec_body load rest
      | Raise e => Raise e
      end
  end.

(** The modules of omniprox/core import no module of the repository. *)
Definition load_core (m : module_name) : outcome unit :=
  exec_body (λ _, Raise ImportError) (body m).

Definition load_module (m : module_name) : outcome unit :=
  exec_body load_core (body m).

Definition check_gcp_availability : bool := installed "google.cloud.apigateway_v1".
Definition check_cloudflare_availability : bool := installed "requests".
Definition check_azure_availability : bool :=
  installed "azure.mgmt.containerinstance" && installed "azure.mgmt.resource"
  && installed "azure.identity".
Definition check_alibaba_availability : bool := true.

Definition check_provider_availability (provider : string) : bool :=
  let p := lower provider in
  if bool_decide (p ∈ ["gcp"; "gcp-lb"; "gcp-loadbalancer"]) then check_gcp_availability
  else if bool_decide (p ∈ ["azure"; "az"; "azure-fd"; "azure-frontdoor"])
  then check_azure_availability
  else if bool_decide (p ∈ ["cloudflare"; "cf"]) then check_cloudflare_availability
  else if bool_decide (p ∈ ["alibaba"; "aliyun"]) then check_alibaba_availability
  else false.

Definition get_provider_class (provider : string) : outcome (option module_name) :=
  if negb (check_provider_availability provider) then Ret None
  else
    let from (m : module_name) :=
      match load_module m with
      | Ret _ => Ret (Some m)
      | Raise e => Raise e
      end in
    if bool_decide (provider = "gcp") then from providers_gcp
    else if bool_decide (provider = "azure") || bool_decide (provider = "az")
    then from providers_azure
    else if bool_decide (provider = "cloudflare") || bool_decide (provider = "cf")
    then from providers_cloudflare
    else if bool_decide (provider = "alibaba") then from providers_alibaba
    else Ret None.

End Imports.

(** How the process ends. *)
Inductive process_end :=
| Exit (code : Z)         (* sys.exit(code) *)
| Traceback (e : exn).    (* an exception nothing catches *)

(** The last [try] of [main]: the provider is instantiated and its
    command executed; every exception ends in [sys.exit(1)]. *)
Definition run_provider {S} (execute : ST S bool) (s : S) : process_end * S :=
  match execute s with
  | (Ret true, s') => (Exit 0, s')
  | (Ret false, s') => (Exit 1, s')
  | (Raise KeyboardInterrupt, s') => (Exit 1, s')   (* except KeyboardInterrupt *)
  | (Raise _, s') => (Exit 1, s')                   (* except Exception *)
  end.

(** [main] from the provider aliases on, for a given command. *)
Definition main {S} (installed : string → bool) (provider : string)
    (instantiate : module_name → ST S bool) (s : S) : process_end * S :=
  let provider :=
    if bool_decide (provider = "cf") then "cloudflare"
    else if bool_decide (provider = "az") then "azure" else provider in
  match get_provider_class installed provider with
  | Raise e => (Traceback e, s)
  | Ret None => (Exit 1, s)
  | Ret (Some cls) => run_provider (instantiate cls) s
  end.

(** *** The --all flag *)

Section AllProviders.
Context {W : Type}.
Context (installed : string → bool).           (* third-party packages *)
Context (sections : list string).              (* config.sections() *)
Context (profile : string).                    (* args.profile *)
Context (instantiate : module_name → ST W bool).   (* provider_class(args).execute() *)

Definition all_providers : list string := ["cloudflare"; "gcp"; "azure"; "alibaba"].

(** A provider has a section for the profile, or for [default]. *)
Definition configured (provider : string) : bool :=
  bool_decide (provider +:+ ":" +:+ profile ∈ sections)
  || bool_decide (provider +:+ ":default" ∈ sections).

(** One iteration of the loop over the providers; the accumulator is
    the pair [(successful, failed)]. *)
Definition run_configured (counts : nat * nat) (provider : string) : ST W (nat * nat) :=
  if negb (configured provider) then ret counts
  else
    try_except
      (match get_provider_class installed provider with
       | Raise e => raise e
       | Ret None => ret (counts.1, S counts.2)
       | Ret (Some cls) =>
           success <- instantiate cls ;;
           if success then ret (S counts.1, counts.2) else ret (counts.1, S counts.2)
       end)
      is_Exception
      (λ _, ret (counts.1, S counts.2)).

Definition execute_all_providers : ST W Z :=
  counts <- for_acc run_configured all_providers (0, 0) ;;
  ret (if counts.2 =? 0 then 0%Z else 1%Z).

(** The branch of [main] for [args.all]. *)
Definition main_all (command : option string) : ST W Z :=
  if bool_decide (command = Some "cleanup") || bool_decide (command = Some "list")
  then execute_all_providers
  else ret 1%Z.

End AllProviders.

(** *** quick_cli *)

Definition quick_commands : list string :=
  ["create"; "list"; "delete"; "update"; "cleanup"; "status"; "proxytest"].

(** The argument vector [quick_cli] hands to [main] for the arguments
    [sys.argv[1:]]; [None] when there is none (the help is printed and
    the process exits). *)
Definition quick_cli (args : list string) : option (list string) :=
  match args with
  | [] => None
  | command :: rest =>
      if bool_decide (command ∈ quick_commands) then
        let new_args := ["omniprox"; "--command"; command] in
        match rest with
        | a :: rest' =>
            if bool_decide (command ∈ ["create"; "update"]) && negb (String.prefix "-" a)
            then Some (new_args ++ ["--url"; a] ++ rest')
            else if bool_decide (command = "delete") && negb (String.prefix "-" a)
            then Some (new_args ++ ["--api_id"; a] ++ rest')
            else Some (new_args ++ rest)
        | [] => Some new_args
        end
      else Some ("omniprox" :: args)
  end.

End Cli.

(** * Part II: the vocabulary of the properties *)

Import Runtime.

(** The records in the endpoints file, as [_load_endpoints] returns them. *)
Definition stored (w : world) : list endpoint := default [] (endpoints_file w).

Definition named (name : string) (ep : endpoint) : Prop := ep !! "name" = Some name.

#[global] Instance named_dec name ep : Decision (named name ep).
Proof. unfold named. apply _. Defined.

(** The entry of [created_workers] that goes with a stored record. *)
Definition worker_of (ep : endpoint) : worker :=
  {| wk_name := default "" (ep !! "name"); wk_url := default "" (ep !! "url") |}.

(** Only the network log and the cached subdomain differ. *)
Definition net_only (w w' : world) : Prop :=
  url w' = url w ∧ api_id w' = api_id w ∧ number w' = number w
  ∧ endpoints_file w' = endpoints_file w
  ∧ created_workers w' = created_workers w ∧ failed_count w' = failed_count w
  ∧ names_drawn w' = names_drawn w ∧ inputs_read w' = inputs_read w
  ∧ stdout w' = stdout w.

(** The HTTP layer fails only the way the requests library documents:
    with a [RequestException]. *)
Definition vendor_only (E : env) : Prop :=
  ∀ k rq e, http E k rq = Exc e → e = RequestException.

(** The terminal answers every prompt. *)
Definition input_answers (E : env) : Prop := ∀ k, ∃ answer, input E k = Ret answer.

(** No stored record carries a name that is still to be generated. *)
Definition unused_names (E : env) (w : world) : Prop :=
  ∀ ep a, ep ∈ stored w → names_drawn w ≤ a → ¬ named (worker_name E a) ep.

(** What one iteration of the creation loop does to the state. *)
Inductive attempt_effect (E : env) (target : string) (N : Z) (w w' : world) :
    outcome (ctl bool) → Prop :=
| attempt_created (ep : endpoint) :
    named (worker_name E (names_drawn w)) ep →
    ep !! "target_url" = Some target →
    created_workers w' = created_workers w ++ [worker_of ep] →
    failed_count w' = failed_count w →
    endpoints_file w' =
      (if fs_writable E then Some (Cloudflare.upsert ep (stored w)) else endpoints_file w) →
    attempt_effect E target N w w' (Ret Next)
| attempt_failed (c : ctl bool) :
    (if (N =? 1)%Z then c = Return false
     else c = Next ∧ failed_count w' = S (failed_count w)) →
    created_workers w' = created_workers w →
    endpoints_file w' = endpoints_file w →
    attempt_effect E target N w w' (Ret c)
| attempt_raised (e : exn) k rq :
    http E k rq = Exc e →
    is_RequestException e = false →
    created_workers w' = created_workers w →
    failed_count w' = failed_count w →
    endpoints_file w' = endpoints_file w →
    attempt_effect E target N w w' (Raise e).

(** The state in which [create] looks the subdomain up: the requested
    number has been read and the two locals initialised. *)
Definition loop_entry (w : world) : world :=
  snd ((_ <- Cloudflare.requested_number ;;
        modify (set_created_workers []) ;;
        modify (set_failed_count 0)) w).

(** The request with which [init_provider] verifies the credentials. *)
Definition verify_request (E : env) : request :=
  {| rq_meth := GET; rq_url := Cloudflare.account_url E |}.

(** The identifiers read from the replies with status 200 when the
    proxies are probed one after the other, the first probe being the
    HTTP call number [k]. *)
Fixpoint successful_ips (E : env) (k : nat) (proxies : list string) : list string :=
  match proxies with
  | [] => []
  | proxy_url :: rest =>
      match http E k {| rq_meth := GET; rq_url := proxy_url |} with
      | Resp r =>
          if (status_code r =? 200)%Z
          then strip (text r) :: successful_ips E (S k) rest
          else successful_ips E (S k) rest
      | Exc _ => successful_ips E (S k) rest
      end
  end.

(** [m] raises nothing but the exceptions in [allowed]. *)
Definition raises_only {S A} (allowed : exn → bool) (m : ST S A) : Prop :=
  ∀ s e s', m s = (Raise e, s') → allowed e = true.

Definition nothing : exn → bool := λ _, false.

(** ** Concrete environments *)

Module Examples.

Definition plain (code : Z) (body : string) : response :=
  {| status_code := code; text := body; json_success := true;
     json_subdomain := Some "edge"; json_scripts := [] |}.

Definition listing (scripts : list script) : response :=
  {| status_code := 200; text := ""; json_success := true;
     json_subdomain := None; json_scripts := scripts |}.

Definition nth_name (k : nat) : string := "proxy-" +:+ pretty k.

Definition nth_script (k : nat) : script :=
  {| sc_id := Some (nth_name k);
     sc_created_on := Some ("2024-01-01T00:00:0" +:+ pretty k) |}.

Definition is_meth (m : meth) (rq : request) : bool :=
  match m, rq_meth rq with
  | GET, GET | PUT, PUT | POST, POST | DELETE, DELETE => true
  | _, _ => false
  end.

Definition scripts_listing : string :=
  "https://api.cloudflare.com/client/v4/accounts/acct/workers/scripts".

Definition probe_url (k : nat) : string :=
  "https://" +:+ nth_name k +:+ ".edge.workers.dev?url=https://ipinfo.io/ip".

Definition example_env (replies : nat → request → response) (tty : bool)
    (answer : outcome string) : env :=
  {| api_token := "token"; account_id := "acct";
     http := λ k rq, Resp (replies k rq);
     worker_name := nth_name;
     strftime := λ k, "2024-01-01 00:00:0" +:+ pretty k;
     stdin_isatty := tty;
     input := λ _, answer;
     fs_writable := true |}.

Definition example_world (u id : option string) (n : Z)
    (file : option (list endpoint)) : world :=
  {| url := u; api_id := id; number := Some n;
     worker_subdomain_cache := None; endpoints_file := file;
     created_workers := []; failed_count := 0; net_log := [];
     names_drawn := 0; inputs_read := 0; stdout := [] |}.

(** An account that accepts every request. *)
Definition accepting : nat → request → response := λ _ _, plain 200 "".

(** The listing shows the workers created so far (one more every fourth
    call) and the k-th worker answers a probe with the k-th of [ips],
    or with status 503 where that is [None]. *)
Definition rotation_replies (ips : list (option string)) (k : nat) (rq : request) : response :=
  if is_meth GET rq && bool_decide (rq_url rq = scripts_listing)
  then listing (nth_script <$> seq 0 (k `div` 4))
  else
    match list_find (λ i, rq_url rq = probe_url i) (seq 0 (length ips)) with
    | Some (_, i) =>
        match mjoin (ips !! i) with
        | Some ip => plain 200 (ip +:+ String "010"%char "")
        | None => plain 503 ""
        end
    | None => plain 200 ""
    end.

Definition rotation_env (ips : list (option string)) : env :=
  example_env (rotation_replies ips) false (Ret "n").

(** The deployment of the worker [proxy-1] is refused with status 500. *)
Definition second_fails (k : nat) (rq : request) : response :=
  if is_meth PUT rq && bool_decide (rq_url rq = scripts_listing +:+ "/proxy-1")
  then plain 500 "" else plain 200 "".

Definition batch_env : env := example_env second_fails false (Ret "n").

(** The first deletion is reported, the second finds nothing. *)
Definition deleted_then_gone (k : nat) (rq : request) : response :=
  if is_meth DELETE rq && (1 <? k) then plain 404 "" else plain 200 "".

Definition delete_env : env := example_env deleted_then_gone false (Ret "n").

(** The account holds the listed scripts. *)
Definition remote_has (scripts : list script) (k : nat) (rq : request) : response :=
  if is_meth GET rq && bool_decide (rq_url rq = scripts_listing)
  then listing scripts else plain 200 "".

Definition list_env (scripts : list script) : env :=
  example_env (remote_has scripts) false (Ret "n").

(** A terminal whose input is closed. *)
Definition eof_env : env := example_env accepting true (Raise EOFError).

Definition local_record (k : nat) : endpoint :=
  Cloudflare.new_endpoint (nth_name k) ("https://" +:+ nth_name k +:+ ".edge.workers.dev")
    "https://example.local" "2024-01-01 00:00:00".

Definition names (l : list endpoint) : list (option string) := (λ ep, ep !! "name") <$> l.

End Examples.

Module AzureExample.
Import Azure.

Definition az_env : env :=
  {| init_ok := true;
     resource_group_ready := Ret tt;
     unique_suffix := λ k, "sfx" +:+ pretty k;
     deploy := λ i, Ret (Some {| ip := "20.0.0." +:+ pretty i; fqdn := None |});
     config_writable := true;
     rotation_client := Ret tt |}.

Definition az_state : state :=
  {| url := Some "https://example.local"; pool_size := 2;
     container_pool := []; profile_pool := []; suffixes_drawn := 0 |}.

End AzureExample.

(** ** Vocabulary of the further properties *)

(** [n] slashes. *)
Fixpoint slashes (n : nat) : string :=
  match n with 0 => "" | S n' => String "/"%char (slashes n') end.

(** The [name] entries of a list of records, in order. *)
Definition record_names (l : list endpoint) : list (option string) :=
  (λ ep, ep !! "name") <$> l.

(** [m] takes every state to one related to it by [R], whether it
    returns or raises. *)
Definition preserves {S A} (R : S → S → Prop) (m : ST S A) : Prop :=
  ∀ s o s', m s = (o, s') → R s s'.

(** Between the two states requests were sent, and all of them satisfy [P]. *)
Definition log_adds (P : request → Prop) (w w' : world) : Prop :=
  ∃ added, net_log w' = net_log w ++ added ∧ Forall P added.

(** The attribute [f] has the same value in both states. *)
Definition keeps {X} (f : world → X) (w w' : world) : Prop := f w' = f w.

(** A request that, if it deletes, deletes a worker script whose name
    carries one of the tool's prefixes. *)
Definition deletes_own_worker (E : env) (rq : request) : Prop :=
  rq_meth rq = DELETE →
  ∃ name, rq_url rq = Cloudflare.script_url E name
          ∧ startswith_any Cloudflare.omniprox_prefixes name = true.

(** A stored record whose name carries one of the tool's prefixes. *)
Definition tool_owned (ep : endpoint) : bool :=
  startswith_any Cloudflare.omniprox_prefixes (default "" (ep !! "name")).

(** Between the two states at most [n] containers were added to the
    pool in memory, all for [target]; the URL and the stored pool are
    as before. *)
Definition pool_grows (target : string) (n : nat) (s s' : Azure.state) : Prop :=
  ∃ added, Azure.container_pool s' = Azure.container_pool s ++ added
         ∧ length added ≤ n
         ∧ Forall (λ c, Azure.ci_target c = target) added
         ∧ Azure.url s' = Azure.url s
         ∧ Azure.profile_pool s' = Azure.profile_pool s.

(** The state after [n] calls of [m] in a row. *)
Fixpoint calls {St A} (m : ST St A) (n : nat) (s : St) : St :=
  match n with
  | 0 => s
  | S n' => calls m n' (snd (m s))
  end.

(** ** Further concrete environments *)

Module FurtherExamples.
Import Examples.

(** The script listing is refused with status 500. *)
Definition listing_refused (k : nat) (rq : request) : response :=
  if is_meth GET rq && bool_decide (rq_url rq = scripts_listing)
  then plain 500 "" else plain 200 "".

(** Every deletion is refused with status 500. *)
Definition deletion_refused (k : nat) (rq : request) : response :=
  if is_meth DELETE rq then plain 500 "" else plain 200 "".

(** The account lists two workers and refuses to delete them. *)
Definition listed_but_kept (k : nat) (rq : request) : response :=
  if is_meth DELETE rq then plain 500 ""
  else remote_has [nth_script 0; nth_script 1] k rq.

Definition pooled (k : nat) : Azure.container_info :=
  {| Azure.ci_name := "omniprox-pool-" +:+ pretty k;
     Azure.ci_ip := "20.0.0." +:+ pretty k;
     Azure.ci_fqdn := "20.0.0." +:+ pretty k;
     Azure.ci_url := "http://20.0.0." +:+ pretty k;
     Azure.ci_target := "https://example.local" |}.

(** A subscription in which no container group can be deleted. *)
Definition az_delete_env : Azure.delete_env :=
  {| Azure.d_env := AzureExample.az_env;
     Azure.list_groups := Ret [];
     Azure.begin_delete := λ _, Raise OtherException |}.

Definition az_pooled_state : Azure.state :=
  {| Azure.url := None; Azure.pool_size := 2;
     Azure.container_pool := [pooled 1; pooled 2];
     Azure.profile_pool := [pooled 1; pooled 2];
     Azure.suffixes_drawn := 0 |}.

End FurtherExamples.

(** * Part III: properties *)

Import Examples.

(** ** Stepping through method bodies *)

Lemma bind_modify {S B} (f : S → S) (k : unit → ST S B) (s : S) :
  bind (modify f) k s = k tt (f s).
Proof. reflexivity. Qed.

Lemma bind_inv {S A B} (m : ST S A) (k : A → ST S B) s b s' :
  bind m k s = (Ret b, s') → ∃ a s1, m s = (Ret a, s1) ∧ k a s1 = (Ret b, s').
Proof.
  unfold bind. destruct (m s) as [[a|e] s1]; [eauto|done].
Qed.

Lemma truthy_true s : s ≠ "" → truthy s = true.
Proof. intros. unfold truthy. by rewrite bool_decide_true. Qed.

Lemma stored_set_stdout v w : stored (set_stdout v w) = stored w.
Proof. reflexivity. Qed.

Lemma filter_idemp {A} (P : A → Prop) `{∀ x, Decision (P x)} (l : list A) :
  filter P (filter P l) = filter P l.
Proof.
  induction l as [|x l IH]; [done|].
  rewrite filter_cons. destruct (decide (P x)).
  - rewrite filter_cons, decide_True by done. by f_equal.
  - done.
Qed.

Lemma append_assoc (a b c : string) : (a +:+ b) +:+ c = a +:+ (b +:+ c).
Proof.
  induction a as [|x a IH]; [done|].
  change (String x ((a +:+ b) +:+ c) = String x (a +:+ b +:+ c)). by rewrite IH.
Qed.

Lemma append_empty_r (a : string) : a +:+ "" = a.
Proof.
  induction a as [|x a IH]; [done|].
  change (String x (a +:+ "") = String x a). by rewrite IH.
Qed.

(** ** The endpoints file of the Cloudflare provider *)

Section CloudflareFacts.
Context (E : env).

Lemma init_provider_log w o w1 :
  Cloudflare.init_provider E w = (o, w1) →
  w1 = set_net_log (net_log w1) w
  ∧ (net_log w1 = net_log w ∨ net_log w1 = net_log w ++ [verify_request E])
  ∧ (truthy (api_token E) = true → truthy (account_id E) = true →
     net_log w1 = net_log w ++ [verify_request E]).
Proof.
  unfold Cloudflare.init_provider.
  destruct (truthy (api_token E)), (truthy (account_id E)); simpl.
  2-4: unfold ret; intros [= <- <-]; split_and!; [by destruct w|by left|done..].
  unfold try_except, bind, http_call, ret.
  destruct (http E _ _) as [r|e]; simpl.
  - intros; repeat case_match; simplify_eq; split_and!; simpl; eauto.
  - destruct e; simpl; intros [= <- <-]; split_and!; simpl; eauto.
Qed.

Lemma init_provider_frame w o w1 :
  Cloudflare.init_provider E w = (o, w1) → ∃ log, w1 = set_net_log log w.
Proof. intros H. apply init_provider_log in H as [H _]. eauto. Qed.

Lemma ensure_subdomain_frame w o w1 :
  Cloudflare._ensure_subdomain E w = (o, w1) → net_only w w1.
Proof.
  unfold Cloudflare._ensure_subdomain, Cloudflare.worker_subdomain,
    try_except, bind, http_call, ret, get, modify. simpl.
  intros H.
  repeat (case_match; simplify_eq/=); by repeat split.
Qed.

(** *** delete *)

Lemma delete_step w w1 name r :
  fs_writable E = true →
  api_id w = Some name → name ≠ "" →
  Cloudflare.init_provider E w = (Ret true, w1) →
  http E (length (net_log w1))
    {| rq_meth := DELETE; rq_url := Cloudflare.script_url E name |} = Resp r →
  status_code r = 200%Z ∨ status_code r = 404%Z →
  ∃ w2, Cloudflare.delete E w = (Ret true, w2)
      ∧ endpoints_file w2 = Some (filter (λ ep, ep !! "name" ≠ Some name) (stored w))
      ∧ api_id w2 = Some name.
Proof.
  intros Hfs Hid Hne Hinit Hreply Hst.
  destruct (init_provider_frame _ _ _ Hinit) as [log ->].
  unfold Cloudflare.delete, bind at 1. rewrite Hinit. simpl.
  unfold bind at 1, get at 1. simpl. rewrite Hid. simpl.
  rewrite truthy_true by done. simpl.
  unfold try_except, bind at 1, http_call. simpl in *. rewrite Hreply.
  assert ((status_code r =? 200)%Z || (status_code r =? 404)%Z = true) as ->.
  { destruct Hst as [-> | ->]; reflexivity. }
  unfold print, Cloudflare._remove_endpoint, Cloudflare._load_endpoints,
    Cloudflare._save_all_endpoints.
  rewrite Hfs. unfold bind, modify, get, ret. simpl.
  eexists. split; [reflexivity|]. simpl. auto.
Qed.

(** C3.  Deleting a worker that is already gone is a success: with the
    credentials accepted and an id given, [delete] returns [True] both
    when the API answers 200 and when it answers 404, and in both cases
    the record of that name leaves the endpoints file while the other
    records stay; a second [delete] of the same id, answered 200 or 404,
    returns [True] again and leaves the file as the first one left it. *)
Theorem delete_of_gone_worker_succeeds w w1 name r :
  fs_writable E = true →
  api_id w = Some name → name ≠ "" →
  Cloudflare.init_provider E w = (Ret true, w1) →
  http E (length (net_log w1))
    {| rq_meth := DELETE; rq_url := Cloudflare.script_url E name |} = Resp r →
  status_code r = 200%Z ∨ status_code r = 404%Z →
  ∃ w2, Cloudflare.delete E w = (Ret true, w2)
      ∧ stored w2 = filter (λ ep, ¬ named name ep) (stored w)
      ∧ (∀ ep, ep ∈ stored w2 → ¬ named name ep)
      ∧ (∀ w3 r',
           Cloudflare.init_provider E w2 = (Ret true, w3) →
           http E (length (net_log w3))
             {| rq_meth := DELETE; rq_url := Cloudflare.script_url E name |} = Resp r' →
           status_code r' = 200%Z ∨ status_code r' = 404%Z →
           ∃ w4, Cloudflare.delete E w2 = (Ret true, w4) ∧ stored w4 = stored w2).
Proof.
  intros Hfs Hid Hne Hinit Hreply Hst.
  destruct (delete_step _ _ _ _ Hfs Hid Hne Hinit Hreply Hst) as (w2 & Hdel & Hfile & Hid2).
  exists w2. split; [done|]. unfold stored at 1. rewrite Hfile. simpl.
  split; [done|]. split.
  - intros ep Hin. unfold stored in Hin. rewrite Hfile in Hin. simpl in Hin.
    by apply list_elem_of_filter in Hin as [? _].
  - intros w3 r' Hinit' Hreply' Hst'.
    destruct (delete_step _ _ _ _ Hfs Hid2 Hne Hinit' Hreply' Hst')
      as (w4 & Hdel' & Hfile' & _).
    exists w4. split; [done|]. unfold stored at 1 2. rewrite Hfile'. simpl.
    unfold stored. rewrite Hfile. simpl.
    apply (filter_idemp (λ ep : endpoint, ep !! "name" ≠ Some name)).
Qed.

(** *** list and sync_endpoints *)

Lemma remote_endpoint_name sub sc :
  Cloudflare.remote_endpoint sub sc !! "name" = Some (default "" (sc_id sc)).
Proof. unfold Cloudflare.remote_endpoint. by simplify_map_eq. Qed.

Lemma sync_endpoints_remote w w1 sub r :
  fs_writable E = true →
  Cloudflare._ensure_subdomain E w = (Ret (Some sub), w1) → sub ≠ "" →
  http E (length (net_log w1))
    {| rq_meth := GET; rq_url := Cloudflare.scripts_url E |} = Resp r →
  ¬ (400 ≤ status_code r < 600)%Z →
  let remote := Cloudflare.remote_endpoint sub
                  <$> filter (λ sc, Cloudflare.is_omniprox_script sc = true)
                             (json_scripts r) in
  ∃ w2, Cloudflare.sync_endpoints E w = (Ret remote, w2)
      ∧ endpoints_file w2 = Some remote.
Proof.
  intros Hfs Hsub Hne Hreply Hst remote.
  unfold Cloudflare.sync_endpoints, try_except, bind at 1. rewrite Hsub. simpl.
  rewrite truthy_true by done. simpl.
  unfold bind at 1, http_call. rewrite Hreply.
  unfold raise_for_status.
  assert ((400 <=? status_code r)%Z && (status_code r <? 600)%Z = false) as ->.
  { apply andb_false_iff. destruct (Z.leb_spec 400 (status_code r)); [|by left].
    right. apply Z.ltb_ge. lia. }
  unfold Cloudflare._save_all_endpoints. rewrite Hfs.
  unfold bind, modify, ret. simpl. eauto.
Qed.

(** C4.  [list] prefers the remote truth: when the account's script
    listing is obtained, [list] returns [True] and the endpoints file
    holds exactly the records built from the listed scripts that carry
    one of the tool's name prefixes, whatever the file held before: a
    name is in the file afterwards if and only if the listing reports a
    tool-owned script of that name. *)
Theorem list_replaces_store_with_remote w w0 w1 sub r :
  fs_writable E = true →
  Cloudflare.init_provider E w = (Ret true, w0) →
  Cloudflare._ensure_subdomain E w0 = (Ret (Some sub), w1) → sub ≠ "" →
  http E (length (net_log w1))
    {| rq_meth := GET; rq_url := Cloudflare.scripts_url E |} = Resp r →
  ¬ (400 ≤ status_code r < 600)%Z →
  ∃ w2, Cloudflare.list E w = (Ret true, w2)
      ∧ stored w2 = Cloudflare.remote_endpoint sub
                      <$> filter (λ sc, Cloudflare.is_omniprox_script sc = true)
                                 (json_scripts r)
      ∧ (∀ name,
           (∃ ep, ep ∈ stored w2 ∧ named name ep)
           ↔ (∃ sc, sc ∈ json_scripts r ∧ default "" (sc_id sc) = name
                    ∧ startswith_any Cloudflare.omniprox_prefixes name = true)).
Proof.
  intros Hfs Hinit Hsub Hne Hreply Hst.
  destruct (sync_endpoints_remote _ _ _ _ Hfs Hsub Hne Hreply Hst) as (w2 & Hsync & Hfile).
  set (remote := _ <$> _) in *.
  assert (∃ w3, Cloudflare.list E w = (Ret true, w3) ∧ endpoints_file w3 = Some remote)
    as (w3 & Hlist & Hfile3).
  { unfold Cloudflare.list, bind at 1. rewrite Hinit. simpl.
    unfold try_except, bind at 1. rewrite Hsync.
    destruct remote; unfold print, bind, modify, ret; simpl; eauto. }
  exists w3. split; [done|]. unfold stored. rewrite Hfile3. simpl. split; [done|].
  intros name. subst remote. split.
  - intros (ep & Hin & Hname).
    apply list_elem_of_fmap in Hin as (sc & -> & Hin).
    apply list_elem_of_filter in Hin as [Hpre Hin].
    unfold named in Hname. rewrite remote_endpoint_name in Hname. simplify_eq.
    exists sc. done.
  - intros (sc & Hin & <- & Hpre).
    exists (Cloudflare.remote_endpoint sub sc). split.
    + apply list_elem_of_fmap. exists sc. split; [done|].
      apply list_elem_of_filter. done.
    + apply remote_endpoint_name.
Qed.

(** *** The creation loop *)

Lemma new_endpoint_name n u t c : named n (Cloudflare.new_endpoint n u t c).
Proof. unfold named, Cloudflare.new_endpoint. by simplify_map_eq. Qed.

Lemma new_endpoint_target n u t c :
  Cloudflare.new_endpoint n u t c !! "target_url" = Some t.
Proof. unfold Cloudflare.new_endpoint. by simplify_map_eq. Qed.

Lemma new_endpoint_worker n u t c :
  worker_of (Cloudflare.new_endpoint n u t c) = {| wk_name := n; wk_url := u |}.
Proof. unfold worker_of, Cloudflare.new_endpoint. by simplify_map_eq. Qed.

Lemma create_attempt_effect target sub N i w o w' :
  Cloudflare.create_attempt E target sub N i w = (o, w') →
  attempt_effect E target N w w' o
  ∧ names_drawn w' = S (names_drawn w) ∧ stdout w' = stdout w.
Proof.
  unfold Cloudflare.create_attempt, Cloudflare._generate_worker_name,
    Cloudflare.count_failure, Cloudflare._save_endpoint, Cloudflare._save_all_endpoints,
    Cloudflare._load_endpoints, Cloudflare.now, raise_for_status, http_call,
    try_except, bind, ret, raise, get, modify.
  cbn -[String.append Cloudflare.new_endpoint].
  intros H.
  repeat (case_match; simplify_eq/=).
  all: split; [|done].
  all: try (by eapply attempt_failed;
              [rewrite ?Z.eqb_refl; repeat case_match; try done; try lia|..]).
  all: try (by eapply attempt_raised; simpl; eauto).
  all: try (eapply (attempt_created _ _ _ _ _
                      (Cloudflare.new_endpoint _ _ _ (strftime E (S (names_drawn w)))));
            [apply new_endpoint_name | apply new_endpoint_target
            | by rewrite new_endpoint_worker | done
            | simpl; by repeat case_match ]).
Qed.

Lemma upsert_fresh (new : endpoint) (l : list endpoint) :
  (∀ ep, ep ∈ l → ep !! "name" ≠ new !! "name") →
  Cloudflare.upsert new l = l ++ [new].
Proof.
  induction l as [|ep l IH]; intros Hfresh; [done|].
  simpl. rewrite bool_decide_false.
  - f_equal. apply IH. intros ep' Hin. apply Hfresh. by right.
  - apply Hfresh. by left.
Qed.

(** Whatever the loop has run through, the file holds what it held
    before followed by the records of the workers created so far. *)
Lemma create_loop_persists target sub N l : ∀ w o w',
  fs_writable E = true →
  Inj (=) (=) (worker_name E) →
  unused_names E w →
  for_each (Cloudflare.create_attempt E target sub N) l w = (o, w') →
  ∃ eps, stored w' = stored w ++ eps
       ∧ created_workers w' = created_workers w ++ (worker_of <$> eps)
       ∧ Forall (λ ep, ep !! "target_url" = Some target) eps
       ∧ unused_names E w'.
Proof.
  induction l as [|i l IH]; intros w o w' Hfs Hinj Hunused.
  - simpl. unfold ret. intros [= <- <-]. exists []. by rewrite !app_nil_r.
  - simpl. unfold bind at 1.
    destruct (Cloudflare.create_attempt E target sub N i w) as [o1 w1] eqn:Hstep.
    apply create_attempt_effect in Hstep as (Heff & Hnames & _).
    inversion Heff as [ep Hname Htarget Hcreated Hfailed Hfile
                      | c Hc Hcreated Hfile
                      | e k rq He Hnr Hcreated Hfailed Hfile]; subst o1.
    + (* created, and saved at once *)
      rewrite Hfs in Hfile.
      assert (Cloudflare.upsert ep (stored w) = stored w ++ [ep]) as Hup.
      { apply upsert_fresh. intros ep' Hin. rewrite Hname.
        apply (Hunused ep' (names_drawn w)); [done|lia]. }
      rewrite Hup in Hfile.
      assert (stored w1 = stored w ++ [ep]) as Hst1
        by (unfold stored at 1; by rewrite Hfile).
      assert (unused_names E w1) as Hunused1.
      { intros ep' a Hin Ha. rewrite Hst1 in Hin. rewrite Hnames in Ha.
        apply elem_of_app in Hin as [Hin|Hin].
        - apply Hunused; [done|lia].
        - apply list_elem_of_singleton in Hin as ->. unfold named. rewrite Hname.
          intros [= Heq]. apply Hinj in Heq. lia. }
      intros Hrest.
      destruct (IH _ _ _ Hfs Hinj Hunused1 Hrest) as (eps & Hs & Hc & Ht & Hu).
      exists (ep :: eps). rewrite Hs, Hc, Hst1, Hcreated, <- !app_assoc. simpl.
      repeat split; [by constructor|done].
    + (* a counted failure: nothing is stored *)
      assert (stored w1 = stored w) as Hst1 by (unfold stored; by rewrite Hfile).
      assert (unused_names E w1) as Hunused1.
      { intros ep' a Hin Ha. rewrite Hst1 in Hin. apply Hunused; [done|lia]. }
      destruct c as [|v].
      * intros Hrest.
        destruct (IH _ _ _ Hfs Hinj Hunused1 Hrest) as (eps & Hs & Hc' & Ht & Hu).
        exists eps. by rewrite Hs, Hc', Hst1, Hcreated.
      * unfold ret. intros [= <- <-]. exists []. rewrite !app_nil_r.
        by rewrite Hst1, Hcreated.
    + (* an exception from outside the requests hierarchy *)
      intros [= <- <-]. exists []. rewrite !app_nil_r. split_and!; [..|done|].
      * unfold stored. by rewrite Hfile.
      * done.
      * intros ep' a Hin Ha. unfold stored in Hin. rewrite Hfile in Hin.
        apply Hunused; [done|lia].
Qed.

(** With driver failures only, a batch of more than one proxy runs
    through all its attempts. *)
Lemma create_loop_completes target sub N l : ∀ w o w',
  vendor_only E → N ≠ 1%Z →
  for_each (Cloudflare.create_attempt E target sub N) l w = (o, w') →
  o = Ret Next
  ∧ names_drawn w' = names_drawn w + length l
  ∧ length (created_workers w') + failed_count w'
    = length (created_workers w) + failed_count w + length l
  ∧ stdout w' = stdout w.
Proof.
  intros w o w' Hvendor HN. revert w o w'.
  induction l as [|i l IH]; intros w o w'.
  - simpl. unfold ret. intros [= <- <-]. split_and!; [done|lia|lia|done].
  - simpl. unfold bind at 1.
    destruct (Cloudflare.create_attempt E target sub N i w) as [o1 w1] eqn:Hstep.
    apply create_attempt_effect in Hstep as (Heff & Hnames & Hout).
    inversion Heff as [ep Hname Htarget Hcreated Hfailed Hfile
                      | c Hc Hcreated Hfile
                      | e k rq He Hnr Hcreated Hfailed Hfile]; subst o1.
    + intros Hrest. destruct (IH _ _ _ Hrest) as (-> & Hn & Hsum & Ho).
      rewrite Hcreated, length_app in Hsum. simpl in Hsum.
      split_and!; [done|lia|lia|congruence].
    + rewrite (proj2 (Z.eqb_neq N 1) HN) in Hc. destruct Hc as [-> Hf].
      intros Hrest. destruct (IH _ _ _ Hrest) as (-> & Hn & Hsum & Ho).
      split_and!; [done|lia| |congruence].
      rewrite Hcreated in Hsum. lia.
    + apply Hvendor in He. by subst e.
Qed.

Lemma requested_number_spec w :
  ∃ out, Cloudflare.requested_number w
         = (Ret (Z.max 1 (Z.min (default 1%Z (number w)) 10)),
            set_stdout (stdout w ++ out) w).
Proof.
  unfold Cloudflare.requested_number, bind, get, ret, print, modify. simpl.
  destruct (Z.ltb_spec (default 1%Z (number w)) 1).
  - exists []. rewrite app_nil_r. f_equal; [f_equal; lia|by destruct w].
  - destruct (Z.ltb_spec 10 (default 1%Z (number w))).
    + eexists [_]. f_equal. f_equal. lia.
    + exists []. rewrite app_nil_r. f_equal; [f_equal; lia|by destruct w].
Qed.


(** *** Validation *)

(** C9, as the code has it.  The requested count is brought into the
    range 1..10, never refused.  [create] without a URL and [delete]
    without an id give up without success and without touching the
    endpoints file, but only after the request that verifies the
    credentials has been sent (it is the only request sent, and it is
    sent whenever a token and an account id are configured).
    [require_url] of the base class turns down a missing or malformed
    URL without any request. *)
Theorem cloudflare_validates_after_credential_check (w : world) :
  (∃ out, Cloudflare.requested_number w
          = (Ret (Z.max 1 (Z.min (default 1%Z (number w)) 10)),
             set_stdout (stdout w ++ out) w))
  ∧ (∀ o w', truthy_opt (url w) = false →
       Cloudflare.create E w = (o, w') →
       o ≠ Ret true
       ∧ endpoints_file w' = endpoints_file w
       ∧ (net_log w' = net_log w ∨ net_log w' = net_log w ++ [verify_request E])
       ∧ (truthy (api_token E) = true → truthy (account_id E) = true →
          net_log w' = net_log w ++ [verify_request E]))
  ∧ (∀ o w', truthy_opt (api_id w) = false →
       Cloudflare.delete E w = (o, w') →
       o ≠ Ret true
       ∧ endpoints_file w' = endpoints_file w
       ∧ (net_log w' = net_log w ∨ net_log w' = net_log w ++ [verify_request E])
       ∧ (truthy (api_token E) = true → truthy (account_id E) = true →
          net_log w' = net_log w ++ [verify_request E]))
  ∧ (∀ urlparse, Base.validate_url urlparse (url w) = false →
       ∃ out, Base.require_url urlparse w
              = (Ret false, set_stdout (stdout w ++ out) w)).
Proof.
  split_and!.
  - apply requested_number_spec.
  - intros o w' Hurl. unfold Cloudflare.create, bind at 1.
    destruct (Cloudflare.init_provider E w) as [[ok|e] w1] eqn:Hinit;
      apply init_provider_log in Hinit as (Hw1 & Hlog & Hlog').
    + destruct ok; simpl.
      * unfold bind at 1, get at 1. simpl. rewrite Hw1. simpl. rewrite Hurl. simpl.
        unfold print, bind, modify, ret. intros [= <- <-]. simpl. by rewrite Hw1.
      * unfold ret. intros [= <- <-]. by rewrite Hw1 at 1.
    + intros [= <- <-]. by rewrite Hw1 at 1.
  - intros o w' Hid. unfold Cloudflare.delete, bind at 1.
    destruct (Cloudflare.init_provider E w) as [[ok|e] w1] eqn:Hinit;
      apply init_provider_log in Hinit as (Hw1 & Hlog & Hlog').
    + destruct ok; simpl.
      * unfold bind at 1, get at 1. simpl. rewrite Hw1. simpl. rewrite Hid. simpl.
        unfold print, bind, modify, ret. intros [= <- <-]. simpl. by rewrite Hw1.
      * unfold ret. intros [= <- <-]. by rewrite Hw1 at 1.
    + intros [= <- <-]. by rewrite Hw1 at 1.
  - intros urlparse Hinvalid.
    unfold Base.require_url, bind, get, print, modify, ret. simpl.
    destruct (negb (truthy_opt (url w))); [by eexists [_]|].
    rewrite Hinvalid. simpl. by eexists [_].
Qed.

End CloudflareFacts.

(** ** The rotation test *)

Section ProxyTestFacts.
Context (E : env).

Lemma probe_loop created : ∀ U w U' w',
  for_acc (Base.probe E) created U w = (Ret U', w') →
  U' = U ∪ list_to_set (successful_ips E (length (net_log w)) created).
Proof.
  induction created as [|proxy_url rest IH]; intros U w U' w'.
  - simpl. unfold ret. intros [= <- <-]. by rewrite (right_id_L ∅ (∪)).
  - simpl. intros H. apply bind_inv in H as (U1 & w1 & Hprobe & Hrest).
    apply IH in Hrest. subst U'.
    revert Hprobe. unfold Base.probe, try_except, bind, http_call, print, modify, ret.
    destruct (http E _ _) as [r|e]; simpl.
    + destruct (status_code r =? 200)%Z; simpl; intros [= <- <-]; simpl;
        rewrite length_app; simpl; rewrite Nat.add_1_r; [|done].
      by rewrite (assoc_L (∪)).
    + destruct e; simpl; intros [= <- <-]; simpl;
        by rewrite length_app, Nat.add_1_r.
Qed.

Lemma results_summary_spec created (U : gset string) w :
  ∃ verdict,
    Base.results_summary created U w
    = (Ret tt, set_stdout (stdout w ++ [ProxiesCreated (length created);
                                        SuccessfulResponses (size U);
                                        UniqueIPs (size U); verdict]) w)
    ∧ (1 < size U → verdict = RotationWorking (size U))
    ∧ (size U = 1 → ∃ ip, U = {[ ip ]} ∧ verdict = NoRotation (Some ip))
    ∧ (size U = 0 → verdict = NoSuccessfulResponses).
Proof.
  unfold Base.results_summary, bind, print, modify, ret. simpl.
  destruct (Nat.ltb_spec 1 (size U)) as [Hgt|Hle].
  - eexists. split; [unfold set_stdout; simpl; by rewrite <- !app_assoc|].
    split_and!; [done|lia|lia].
  - destruct (Nat.eqb_spec (size U) 1) as [Heq|Hne].
    + eexists. split; [unfold set_stdout; simpl; by rewrite <- !app_assoc|].
      split_and!; [lia| |lia].
      intros _. apply size_1_elem_of in Heq as [ip Hip].
      apply leibniz_equiv in Hip. exists ip. split; [done|].
      subst U. by rewrite elements_singleton.
    + eexists. split; [unfold set_stdout; simpl; by rewrite <- !app_assoc|].
      split_and!; [lia|lia|done].
Qed.


End ProxyTestFacts.

(** C6, on the code.  Three probes answer with status 200, two of them
    with the same identifier: the line "Successful responses" shows 2,
    the number of distinct identifiers, and not 3, the number of
    successful responses. *)
Theorem successful_responses_line_counts_identifiers :
  let E := rotation_env [Some "1.2.3.4"; Some "1.2.3.4"; Some "5.6.7.8"] in
  let '(o, w') := Base.p_proxytest (Cloudflare.provider E)
                    (example_world None None 1 None) in
  o = Ret true
  ∧ stdout w' = [ProbeOK "1.2.3.4"; ProbeOK "1.2.3.4"; ProbeOK "5.6.7.8";
                 ProxiesCreated 3; SuccessfulResponses 2; UniqueIPs 2; RotationWorking 2]
  ∧ length (successful_ips E 13 [probe_url 0; probe_url 1; probe_url 2]) = 3.
Proof. by vm_compute. Qed.

(** ** The container pool of the Azure provider *)

Section AzureFacts.
Context (E : Azure.env).

Lemma deploy_container_keeps_profile target i s o s' :
  Azure.deploy_container E target i s = (o, s') →
  Azure.profile_pool s' = Azure.profile_pool s.
Proof.
  unfold Azure.deploy_container, Azure.get_unique_suffix, Azure.lift,
    try_except, bind, modify, ret.
  simpl. intros H. repeat (case_match; simplify_eq/=); done.
Qed.

Lemma pool_loop_keeps_profile target l : ∀ s o s',
  Azure.pool_loop E target l s = (o, s') →
  Azure.profile_pool s' = Azure.profile_pool s.
Proof.
  unfold Azure.pool_loop.
  induction l as [|i l IH]; intros s o s'; simpl.
  - unfold ret. by intros [= <- <-].
  - unfold bind at 1.
    destruct (Azure.deploy_container E target i s) as [[[]|e] s1] eqn:Hstep;
      apply deploy_container_keeps_profile in Hstep.
    + intros Hrest. apply IH in Hrest. congruence.
    + intros [= <- <-]. done.
Qed.

Lemma azure_create_saves_after_loop s s' :
  Azure.create E s = (Ret true, s') →
  Azure.profile_pool s' = Azure.container_pool s'.
Proof.
  unfold Azure.create.
  destruct (negb (Azure.init_ok E)); [by unfold ret|].
  unfold bind at 1, get at 1. simpl.
  destruct (negb (truthy_opt (Azure.url s))); [by unfold ret|].
  unfold try_except.
  match goal with
  | |- context [bind ?m ?k s] => destruct (bind m k s) as [[b|e] s1] eqn:Hbody
  end.
  2:{ destruct (is_Exception e); [by unfold ret|done]. }
  intros [= -> ->].
  apply bind_inv in Hbody as ([] & s1 & _ & Hbody).
  rewrite bind_modify in Hbody.
  apply bind_inv in Hbody as ([] & s2 & _ & Hbody).
  apply bind_inv in Hbody as ([] & s3 & Hsave & Hbody).
  unfold bind at 1, get at 1 in Hbody.
  assert (Azure.profile_pool s3 = Azure.container_pool s3) as Hsaved.
  { revert Hsave. unfold Azure.save_pool_config.
    destruct (Azure.config_writable E); [|by unfold raise].
    unfold modify. by intros [= <-]. }
  destruct (Azure.container_pool s3) eqn:Hpool; [by unfold ret in Hbody|].
  apply bind_inv in Hbody as ([] & s4 & Hclient & Hbody).
  unfold Azure.lift in Hclient. unfold ret in Hbody. simplify_eq. congruence.
Qed.

End AzureFacts.



(** ** Saving the store *)

Section StoreFacts.

Lemma run_appends path (chunks : list string) :
  ∀ (disk : gmap string string) (content : string),
    disk !! path = Some content →
    Store.run (Store.Append path <$> chunks) disk
    = <[path := content +:+ Store.text_of chunks]> disk.
Proof.
  induction chunks as [|c rest IH]; intros disk content Hc.
  - simpl. rewrite append_empty_r. by rewrite insert_id.
  - change (Store.run (Store.Append path <$> c :: rest) disk)
      with (Store.run (Store.Append path <$> rest)
              (Store.apply_op disk (Store.Append path c))).
    simpl. rewrite Hc. simpl.
    rewrite (IH _ (content +:+ c)) by apply lookup_insert_eq.
    by rewrite insert_insert_eq, append_assoc.
Qed.

Lemma write_file_killed path chunks (disk : gmap string string) k :
  Store.killed_after (S k) (Store.write_file path chunks) disk
  = <[path := Store.text_of (take k chunks)]> disk.
Proof.
  unfold Store.killed_after, Store.write_file. simpl.
  rewrite <- fmap_take.
  change (Store.run (Store.Append path <$> take k chunks) (<[path:=""]> disk)
          = <[path:=Store.text_of (take k chunks)]> disk).
  rewrite (run_appends _ _ _ "") by apply lookup_insert_eq.
  by rewrite insert_insert_eq.
Qed.

(** C7, as the code has it.  Both saves open the store file itself for
    writing and write the new text into it; no operation of a save is a
    rename.  Killed before the first operation the file is untouched;
    killed after [k] of the writes it holds the first [k] pieces of the
    new text and nothing else; only a save that runs to its end leaves
    the whole new text. *)
Theorem save_overwrites_store_in_place (path : string) (chunks : list string)
    (disk : gmap string string) (k : nat) :
  let ops := Store._save_all_endpoints path chunks in
  Store.save_profile path chunks = ops
  ∧ Forall (λ op, Store.is_rename op = false) ops
  ∧ Store.killed_after 0 ops disk = disk
  ∧ Store.killed_after (S k) ops disk = <[path := Store.text_of (take k chunks)]> disk
  ∧ Store.run ops disk = <[path := Store.text_of chunks]> disk.
Proof.
  simpl. split_and!.
  - done.
  - unfold Store._save_all_endpoints, Store.write_file. apply Forall_cons.
    split; [done|]. apply Forall_fmap. by apply Forall_true.
  - done.
  - apply write_file_killed.
  - rewrite <- (firstn_all chunks) at 2.
    rewrite <- (write_file_killed path chunks disk (length chunks)).
    unfold Store.killed_after. rewrite take_ge; [done|].
    unfold Store.write_file. simpl. by rewrite length_fmap.
Qed.

(** C7, against the claim: a save killed right after the file has been
    opened leaves it empty, which is neither the old text nor the new. *)
Lemma killed_save_is_neither_old_nor_new :
  let file := "cloudflare_endpoints.json" in
  let old := "[1]" in
  let chunks := ["[1,"; " 2]"] in
  let disk : gmap string string := {[ file := old ]} in
  let killed := Store.killed_after 1 (Store._save_all_endpoints file chunks) disk in
  killed !! file = Some ""
  ∧ killed !! file ≠ disk !! file
  ∧ killed !! file ≠ Some (Store.text_of chunks).
Proof. by vm_compute. Qed.

End StoreFacts.

(** ** Which exceptions leave a command *)

Section Containment.
Context {S : Type}.
Implicit Types allowed : exn → bool.

Lemma ro_ret {A} allowed (a : A) : raises_only (S:=S) allowed (ret a).
Proof. by intros s e s'. Qed.

Lemma ro_get allowed : raises_only (S:=S) allowed get.
Proof. by intros s e s'. Qed.

Lemma ro_modify allowed (f : S → S) : raises_only allowed (modify f).
Proof. by intros s e s'. Qed.

Lemma ro_raise {A} allowed e :
  allowed e = true → raises_only (S:=S) (A:=A) allowed (raise e).
Proof. intros He s e' s'. unfold raise. by intros [= <- _]. Qed.

Lemma ro_bind {A B} allowed (m : ST S A) (k : A → ST S B) :
  raises_only allowed m → (∀ a, raises_only allowed (k a)) →
  raises_only allowed (bind m k).
Proof.
  intros Hm Hk s e s'. unfold bind.
  destruct (m s) as [[a|e1] s1] eqn:Hms.
  - apply Hk.
  - intros [= <- <-]. by apply (Hm _ _ _ Hms).
Qed.

(** Inside a [try] the handled classes may be raised as well. *)
Lemma ro_try {A} allowed (m : ST S A) handles h :
  raises_only (λ e, handles e || allowed e) m →
  (∀ e, raises_only allowed (h e)) →
  raises_only allowed (try_except m handles h).
Proof.
  intros Hm Hh s e s'. unfold try_except.
  destruct (m s) as [[a|e1] s1] eqn:Hms; [done|].
  destruct (handles e1) eqn:He1.
  - apply Hh.
  - intros [= <- <-]. apply Hm in Hms. by rewrite He1 in Hms.
Qed.

Lemma ro_for_each {A B} allowed (body : A → ST S (ctl B)) l :
  (∀ x, raises_only allowed (body x)) → raises_only allowed (for_each body l).
Proof.
  intros Hbody. induction l as [|x l IH]; simpl; [apply ro_ret|].
  apply ro_bind; [done|]. intros [|v]; [done|apply ro_ret].
Qed.

Lemma ro_for_acc {A T} allowed (body : T → A → ST S T) l :
  (∀ t x, raises_only allowed (body t x)) → ∀ t, raises_only allowed (for_acc body l t).
Proof.
  intros Hbody. induction l as [|x l IH]; intros t; simpl; [apply ro_ret|].
  apply ro_bind; [done|]. done.
Qed.

Lemma never_raises {A} (m : ST S A) s :
  raises_only nothing m → ∃ a s', m s = (Ret a, s').
Proof.
  intros Hm. destruct (m s) as [[a|e] s'] eqn:Hms; [eauto|].
  by apply Hm in Hms.
Qed.

(** The handler of [execute] raises again what it caught. *)
Lemma execute_reraises {A} (m : ST S A) (s : S) :
  try_except m is_Exception (λ e, raise e) s = m s.
Proof.
  unfold try_except, raise. destruct (m s) as [[a|e] s']; [done|].
  by destruct (is_Exception e).
Qed.

End Containment.

Create HintDb contain.

Section CloudflareContainment.
Context (E : env) (Hvendor : vendor_only E) (Hinput : input_answers E).

Lemma ro_http allowed m u :
  allowed RequestException = true → raises_only allowed (http_call E m u).
Proof.
  intros Hreq w e w'. unfold http_call.
  destruct (http E _ _) as [r|e1] eqn:Hr; [done|].
  intros [= <- _]. apply Hvendor in Hr. by subst.
Qed.

Lemma ro_raise_for_status allowed r :
  allowed RequestException = true → raises_only allowed (raise_for_status r).
Proof.
  intros Hreq. unfold raise_for_status. case_match; [by apply ro_raise|apply ro_ret].
Qed.

Lemma ro_input allowed : raises_only allowed (input_line E).
Proof.
  intros w e w'. unfold input_line. destruct (Hinput (inputs_read w)) as [a ->]. done.
Qed.

Lemma ro_print allowed l : raises_only allowed (print l).
Proof. apply ro_modify. Qed.

(** A method body is walked through statement by statement. *)
Ltac contain :=
  repeat first
    [ solve [auto with contain]
    | apply ro_ret | apply ro_get | apply ro_modify | apply ro_print
    | apply ro_input
    | apply ro_http; reflexivity
    | apply ro_raise_for_status; reflexivity
    | apply ro_raise; reflexivity
    | apply ro_bind; [|intros ?]
    | apply ro_try; [|intros ?]
    | apply ro_for_each; intros ?
    | apply ro_for_acc; intros ? ?
    | progress case_match ].

Lemma ro_init_provider allowed : raises_only allowed (Cloudflare.init_provider E).
Proof. unfold Cloudflare.init_provider. contain. Qed.
#[local] Hint Resolve ro_init_provider : contain.

Lemma ro_worker_subdomain allowed : raises_only allowed (Cloudflare.worker_subdomain E).
Proof. unfold Cloudflare.worker_subdomain. contain. Qed.
#[local] Hint Resolve ro_worker_subdomain : contain.

Lemma ro_ensure_subdomain allowed : raises_only allowed (Cloudflare._ensure_subdomain E).
Proof. unfold Cloudflare._ensure_subdomain. contain. Qed.
#[local] Hint Resolve ro_ensure_subdomain : contain.

Lemma ro_load allowed : raises_only allowed Cloudflare._load_endpoints.
Proof. unfold Cloudflare._load_endpoints. contain. Qed.
#[local] Hint Resolve ro_load : contain.

Lemma ro_save_all allowed l : raises_only allowed (Cloudflare._save_all_endpoints E l).
Proof. unfold Cloudflare._save_all_endpoints. contain. Qed.
#[local] Hint Resolve ro_save_all : contain.

Lemma ro_create_attempt allowed t s n i :
  raises_only allowed (Cloudflare.create_attempt E t s n i).
Proof.
  unfold Cloudflare.create_attempt, Cloudflare._generate_worker_name,
    Cloudflare.count_failure, Cloudflare._save_endpoint, Cloudflare.now.
  apply ro_try; [|intros ?; contain].
  apply ro_bind; [by intros ???|intros ?].
  contain.
Qed.
#[local] Hint Resolve ro_create_attempt : contain.

Lemma ro_create allowed : raises_only allowed (Cloudflare.create E).
Proof.
  unfold Cloudflare.create, Cloudflare.requested_number, Cloudflare.batch_summary,
    Cloudflare.any_created.
  contain.
Qed.
#[local] Hint Resolve ro_create : contain.

Lemma ro_sync allowed : raises_only allowed (Cloudflare.sync_endpoints E).
Proof. unfold Cloudflare.sync_endpoints. contain. Qed.
#[local] Hint Resolve ro_sync : contain.

Lemma ro_cleanup allowed : raises_only allowed (Cloudflare.cleanup E).
Proof. unfold Cloudflare.cleanup, Cloudflare.cleanup_one. contain. Qed.
#[local] Hint Resolve ro_cleanup : contain.

Lemma ro_methods allowed (command : string) method :
  Base.command_map (Cloudflare.provider E) command = Some method →
  raises_only allowed method.
Proof.
  unfold Base.command_map. intros Hm.
  repeat case_match; simplify_eq/=.
  - contain.
  - unfold Cloudflare.list. contain.
  - unfold Cloudflare.delete, Cloudflare._remove_endpoint. contain.
  - unfold Base.update. contain.
  - unfold Cloudflare.status. contain.
  - unfold Cloudflare.usage. contain.
  - contain.
  - unfold Base.proxytest, Base.proxytest_body, Base.create_test_proxy, Base.probe,
      Base.results_summary, Base.offer_cleanup, Cloudflare._create_single_proxy,
      Cloudflare._get_last_created_proxy_url.
    simpl. contain.
Qed.

Lemma execute_contains (command : option string) :
  raises_only nothing (Base.execute (Cloudflare.provider E) command).
Proof.
  unfold Base.execute.
  destruct (command ≫= Base.command_map (Cloudflare.provider E)) as [method|] eqn:Hm.
  - destruct command as [c|]; [|done]. simpl in Hm.
    intros w e w' Hrun. rewrite execute_reraises in Hrun.
    by apply (ro_methods nothing c method Hm) in Hrun.
  - contain.
Qed.

End CloudflareContainment.



(** ** Importing the provider modules *)

Section CliFacts.
Context (installed : string → bool).

Lemma load_azure : Cli.load_module installed Cli.providers_azure = Raise ImportError.
Proof.
  unfold Cli.load_module, Cli.load_core. simpl.
  by destruct (installed "tldextract").
Qed.

Lemma load_gcp : Cli.load_module installed Cli.providers_gcp = Raise ImportError.
Proof.
  unfold Cli.load_module, Cli.load_core. simpl.
  by destruct (installed "tldextract").
Qed.

Lemma main_azure_or_gcp provider {S} (instantiate : Cli.module_name → ST S bool) (s : S) :
  provider = "gcp" ∨ provider = "azure" ∨ provider = "az" →
  Cli.main installed provider instantiate s
  = (if Cli.check_provider_availability installed provider
     then Cli.Traceback ImportError else Cli.Exit 1, s).
Proof.
  intros [-> | [-> | ->]]; unfold Cli.main, Cli.get_provider_class; simpl.
  - destruct (Cli.check_provider_availability installed "gcp"); simpl; [|done].
    by rewrite load_gcp.
  - destruct (Cli.check_provider_availability installed "azure"); simpl; [|done].
    by rewrite load_azure.
  - change (Cli.check_provider_availability installed "az")
      with (Cli.check_provider_availability installed "azure").
    destruct (Cli.check_provider_availability installed "azure"); simpl; [|done].
    by rewrite load_azure.
Qed.

(** C10.  Whatever is installed, importing the Azure or the GCP
    provider module raises [ImportError], because both ask
    omniprox.core.utils for [confirm_action], which it does not define.
    So for the providers gcp, azure and az, [main] never instantiates a
    provider: it ends with the uncaught [ImportError] when the
    availability check passes and with exit status 1 when it does not,
    the state being untouched either way. *)
Theorem azure_and_gcp_never_reach_provider_code :
  ("confirm_action" ∉ Cli.utils_names)
  ∧ Cli.load_module installed Cli.providers_azure = Raise ImportError
  ∧ Cli.load_module installed Cli.providers_gcp = Raise ImportError
  ∧ Forall (λ provider,
              ∀ (instantiate : Cli.module_name → M bool) (w : world),
                Cli.main installed provider instantiate w
                = (if Cli.check_provider_availability installed provider
                   then Cli.Traceback ImportError else Cli.Exit 1, w))
           ["gcp"; "azure"; "az"].
Proof.
  split_and!.
  - unfold Cli.utils_names. repeat (apply not_elem_of_cons; split; [done|]).
    apply not_elem_of_nil.
  - apply load_azure.
  - apply load_gcp.
  - repeat constructor; intros instantiate w; apply main_azure_or_gcp; auto.
Qed.

End CliFacts.

(** ** The properties at concrete runs *)

Lemma example_env_vendor_only replies tty answer :
  vendor_only (example_env replies tty answer).
Proof. intros k rq e. simpl. done. Qed.

Lemma example_env_answers replies tty answer :
  input_answers (example_env replies tty (Ret answer)).
Proof. intros k. simpl. eauto. Qed.

Lemma nth_name_inj : Inj (=) (=) nth_name.
Proof.
  intros a b H. unfold nth_name in H.
  apply (inj (String.append "proxy-")) in H. by apply (inj pretty) in H.
Qed.

Lemma unused_names_empty E w : stored w = [] → unused_names E w.
Proof. intros Hs ep a Hin. rewrite Hs in Hin. by apply elem_of_nil in Hin. Qed.

(** The first [delete] is answered 200, the second 404. *)
Lemma delete_twice_run :
  let E := delete_env in
  let w := example_world None (Some "proxy-7") 1 (Some [local_record 7; local_record 8]) in
  ∃ w2, Cloudflare.delete E w = (Ret true, w2)
      ∧ stored w2 = filter (λ ep, ¬ named "proxy-7" ep) (stored w)
      ∧ (∀ ep, ep ∈ stored w2 → ¬ named "proxy-7" ep)
      ∧ (∀ w3 r',
           Cloudflare.init_provider E w2 = (Ret true, w3) →
           http E (length (net_log w3))
             {| rq_meth := DELETE; rq_url := Cloudflare.script_url E "proxy-7" |} = Resp r' →
           status_code r' = 200%Z ∨ status_code r' = 404%Z →
           ∃ w4, Cloudflare.delete E w2 = (Ret true, w4) ∧ stored w4 = stored w2).
Proof.
  intros E w.
  apply (delete_of_gone_worker_succeeds E w (snd (Cloudflare.init_provider E w))
           "proxy-7" (plain 200 "")).
  - reflexivity.
  - reflexivity.
  - done.
  - reflexivity.
  - reflexivity.
  - left. reflexivity.
Defined.

Example delete_200_then_404 :
  let E := delete_env in
  let w := example_world None (Some "proxy-7") 1 (Some [local_record 7; local_record 8]) in
  let '(o1, w1) := Cloudflare.delete E w in
  let '(o2, w2) := Cloudflare.delete E w1 in
  o1 = Ret true ∧ o2 = Ret true
  ∧ names (stored w1) = [Some "proxy-8"] ∧ names (stored w2) = [Some "proxy-8"]
  ∧ stdout w2 = [DeletedWorker "proxy-7"; DeletedWorker "proxy-7"].
Proof. by vm_compute. Qed.


Example batch_with_second_attempt_failing :
  let '(o, w') := Cloudflare.create batch_env
                    (example_world (Some "https://example.local") None 5 None) in
  o = Ret true
  ∧ stdout w' = [BatchCreated 4; BatchFailed 1]
  ∧ names (stored w') = [Some "proxy-0"; Some "proxy-2"; Some "proxy-3"; Some "proxy-4"]
  ∧ wk_name <$> created_workers w' = ["proxy-0"; "proxy-2"; "proxy-3"; "proxy-4"].
Proof. by vm_compute. Qed.

(** The file knows [proxy-0], the account reports [proxy-1]. *)
Lemma list_after_drift_run :
  let E := list_env [nth_script 1] in
  let w := example_world None None 1 (Some [local_record 0]) in
  ∃ w2, Cloudflare.list E w = (Ret true, w2)
      ∧ stored w2 = Cloudflare.remote_endpoint "edge"
                      <$> filter (λ sc, Cloudflare.is_omniprox_script sc = true)
                                 [nth_script 1]
      ∧ (∀ name,
           (∃ ep, ep ∈ stored w2 ∧ named name ep)
           ↔ (∃ sc, sc ∈ [nth_script 1] ∧ default "" (sc_id sc) = name
                    ∧ startswith_any Cloudflare.omniprox_prefixes name = true)).
Proof.
  intros E w.
  apply (list_replaces_store_with_remote E w (snd (Cloudflare.init_provider E w))
           (snd (Cloudflare._ensure_subdomain E (snd (Cloudflare.init_provider E w))))
           "edge" (listing [nth_script 1])).
  - reflexivity.
  - reflexivity.
  - reflexivity.
  - done.
  - reflexivity.
  - simpl. lia.
Defined.

Example list_merge_scenarios :
  let w := example_world None None 1 (Some [local_record 0]) in
  names (stored (snd (Cloudflare.list (list_env [nth_script 0; nth_script 1]) w)))
    = [Some "proxy-0"; Some "proxy-1"]
  ∧ names (stored (snd (Cloudflare.list (list_env [nth_script 1]) w))) = [Some "proxy-1"].
Proof. by vm_compute. Qed.


Example rotation_scenarios :
  let run ips :=
    let '(o, w') := Base.p_proxytest (Cloudflare.provider (rotation_env ips))
                      (example_world None None 1 None) in
    (o, drop 3 (stdout w')) in
  run [Some "1.2.3.4"; Some "1.2.3.4"; Some "5.6.7.8"]
    = (Ret true, [ProxiesCreated 3; SuccessfulResponses 2; UniqueIPs 2; RotationWorking 2])
  ∧ run [Some "1.2.3.4"; Some "1.2.3.4"; Some "1.2.3.4"]
    = (Ret true, [ProxiesCreated 3; SuccessfulResponses 1; UniqueIPs 1;
                  NoRotation (Some "1.2.3.4")])
  ∧ run [None; None; None]
    = (Ret false, [ProxiesCreated 3; SuccessfulResponses 0; UniqueIPs 0;
                   NoSuccessfulResponses]).
Proof. by vm_compute. Qed.

(** C9, against the claim: a count of 0 is out of range; [create] does
    not refuse it but creates one proxy, without a word. *)
Lemma zero_count_creates_one_proxy :
  let '(o, w') := Cloudflare.create (example_env accepting false (Ret "n"))
                    (example_world (Some "https://example.local") None 0 None) in
  o = Ret true
  ∧ wk_name <$> created_workers w' = ["proxy-0"]
  ∧ names (stored w') = [Some "proxy-0"]
  ∧ stdout w' = [].
Proof. by vm_compute. Qed.



(** A count of 50 with no URL and no id. *)
Lemma validation_order_run :
  let E := example_env accepting false (Ret "n") in
  let w := example_world None None 50 None in
  fst (Cloudflare.requested_number w) = Ret 10%Z
  ∧ (fst (Cloudflare.create E w) ≠ Ret true
     ∧ net_log (snd (Cloudflare.create E w)) = [verify_request E])
  ∧ (fst (Cloudflare.delete E w) ≠ Ret true
     ∧ net_log (snd (Cloudflare.delete E w)) = [verify_request E])
  ∧ fst (Base.require_url (λ _, Ret ("https", "example.local")) w) = Ret false.
Proof.
  intros E w.
  destruct (cloudflare_validates_after_credential_check E w)
    as ([out Hnumber] & Hcreate & Hdelete & Hrequire).
  split; [|split; [|split]].
  - by rewrite Hnumber.
  - destruct (Hcreate _ _ eq_refl (surjective_pairing (Cloudflare.create E w)))
      as (Hno & _ & _ & Hlog).
    split; [done|]. apply Hlog; reflexivity.
  - destruct (Hdelete _ _ eq_refl (surjective_pairing (Cloudflare.delete E w)))
      as (Hno & _ & _ & Hlog).
    split; [done|]. apply Hlog; reflexivity.
  - destruct (Hrequire (λ _, Ret ("https", "example.local"))) as [out' ->]; reflexivity.
Defined.

(** * Part IV: further properties of the code *)

(** ** String helpers of [core/utils.py] *)

Lemma append_cons (c : ascii) (a b : string) : String c a +:+ b = String c (a +:+ b).
Proof. reflexivity. Qed.

Lemma append_length (a b : string) :
  String.length (a +:+ b) = String.length a + String.length b.
Proof.
  induction a as [|c a IH]; [done|].
  rewrite append_cons. simpl. by rewrite IH.
Qed.

Lemma rstrip_slash_no_slash (s : string) : endswith_slash (rstrip_slash s) = false.
Proof.
  unfold rstrip_slash. set (p := λ c : ascii, bool_decide (c = "/"%char)).
  induction s as [|c r IH]; [done|]. simpl.
  destruct (decide (rstrip_with p r = "")) as [Hr|Hr].
  - rewrite (bool_decide_true _ Hr), andb_true_r.
    destruct (p c) eqn:Hc; [done|]. rewrite Hr. simpl. apply Hc.
  - rewrite (bool_decide_false _ Hr), andb_false_r.
    simpl. by destruct (rstrip_with p r).
Qed.

Lemma rstrip_slash_removes_slashes (s : string) : ∃ n, s = rstrip_slash s +:+ slashes n.
Proof.
  unfold rstrip_slash. set (p := λ c : ascii, bool_decide (c = "/"%char)).
  induction s as [|c r [n IH]]; [by exists 0|]. simpl.
  destruct (decide (rstrip_with p r = "")) as [Hr|Hr].
  - rewrite (bool_decide_true _ Hr), andb_true_r.
    destruct (p c) eqn:Hc.
    + apply bool_decide_eq_true in Hc. subst c. rewrite Hr in IH.
      exists (S n). by rewrite IH at 1.
    + exists n. rewrite append_cons. by f_equal.
  - rewrite (bool_decide_false _ Hr), andb_false_r.
    exists n. rewrite append_cons. by f_equal.
Qed.

(** X1 ([normalize_url]): the result never ends with a slash, normalising
    twice is normalising once, and the argument is the result followed
    by slashes only. *)
Theorem normalize_url_strips_trailing_slashes (u : string) :
  endswith_slash (Utils.normalize_url u) = false
  ∧ Utils.normalize_url (Utils.normalize_url u) = Utils.normalize_url u
  ∧ ∃ n, u = Utils.normalize_url u +:+ slashes n.
Proof.
  unfold Utils.normalize_url.
  destruct (truthy u && endswith_slash u) eqn:Hu.
  - split_and!.
    + apply rstrip_slash_no_slash.
    + rewrite rstrip_slash_no_slash. by rewrite andb_false_r.
    + apply rstrip_slash_removes_slashes.
  - assert (endswith_slash u = false) as Hno.
    { apply andb_false_iff in Hu as [Hu|Hu]; [|done].
      unfold truthy in Hu. destruct u; [done|].
      apply bool_decide_eq_false in Hu. by destruct Hu. }
    split_and!; [done|by rewrite Hu|]. exists 0. by rewrite append_empty_r.
Qed.

Lemma take_str_length (n : nat) (s : string) :
  String.length (Utils.take_str n s) = n `min` String.length s.
Proof.
  revert s. induction n as [|n IH]; intros [|c r]; simpl; try done.
  by rewrite IH.
Qed.

Lemma take_str_prefix (n : nat) (s : string) : ∃ rest, s = Utils.take_str n s +:+ rest.
Proof.
  revert s. induction n as [|n IH]; intros s.
  - exists s. by destruct s.
  - destruct s as [|c r]; [by exists ""|].
    destruct (IH r) as [rest Hr]. exists rest. simpl. rewrite append_cons. by f_equal.
Qed.

(** X2 ([truncate_text]): with a limit of at least 3 the result is as
    long as the text or the limit, whichever is smaller; a text within
    the limit is returned as it is, a longer one is cut to a prefix of
    itself followed by three dots. *)
Theorem truncate_text_length (text : string) (max_length : Z) :
  (3 ≤ max_length)%Z →
  Z.of_nat (String.length (Utils.truncate_text text max_length))
  = Z.min (Z.of_nat (String.length text)) max_length
  ∧ ((Z.of_nat (String.length text) ≤ max_length)%Z →
     Utils.truncate_text text max_length = text)
  ∧ ((max_length < Z.of_nat (String.length text))%Z →
     ∃ kept rest, Utils.truncate_text text max_length = kept +:+ "..."
                  ∧ text = kept +:+ rest).
Proof.
  intros Hmax. unfold Utils.truncate_text, Utils.slice_to.
  destruct (Z.ltb_spec max_length (Z.of_nat (String.length text))) as [Hlt|Hge].
  - split_and!; [|lia|].
    + rewrite append_length.
      destruct (Z.ltb_spec (max_length - 3) 0); [lia|].
      rewrite take_str_length. simpl. lia.
    + intros _. destruct (Z.ltb_spec (max_length - 3) 0); [lia|].
      destruct (take_str_prefix (Z.to_nat (max_length - 3)) text) as [rest Hr].
      by eexists _, rest.
  - split_and!; [lia|done|lia].
Qed.

Lemma truncate_text_length_run :
  Z.of_nat (String.length (Utils.truncate_text "a long description" 10))
  = Z.min (Z.of_nat (String.length "a long description")) 10
  ∧ Utils.truncate_text "a long description" 10 = "a long ...".
Proof.
  split; [apply (truncate_text_length "a long description" 10); lia | reflexivity].
Defined.

(** X3 ([truncate_text], small limits): with a limit below 3, a text
    longer than the limit comes back longer than the limit, since the
    three dots are always appended. *)
Theorem truncate_text_small_limit_overflows (text : string) (max_length : Z) :
  (max_length < 3)%Z →
  (max_length < Z.of_nat (String.length text))%Z →
  (max_length < Z.of_nat (String.length (Utils.truncate_text text max_length)))%Z
  ∧ ∃ kept, Utils.truncate_text text max_length = kept +:+ "...".
Proof.
  intros Hmax Hlen. unfold Utils.truncate_text.
  destruct (Z.ltb_spec max_length (Z.of_nat (String.length text))); [|lia].
  split; [|by eexists].
  rewrite append_length. simpl. lia.
Qed.

Lemma truncate_text_small_limit_run :
  (2 < Z.of_nat (String.length (Utils.truncate_text "abcdef" 2)))%Z
  ∧ Utils.truncate_text "abcdef" 2 = "abcde...".
Proof.
  split; [apply (truncate_text_small_limit_overflows "abcdef" 2); simpl; lia | reflexivity].
Defined.

(** ** The endpoints file: update-or-append and removal *)

Lemma record_names_upsert_fresh (new : endpoint) (l : list endpoint) :
  new !! "name" ∉ record_names l →
  Cloudflare.upsert new l = l ++ [new].
Proof.
  induction l as [|ep l IH]; [done|]. simpl.
  intros Hn. apply not_elem_of_cons in Hn as [Hne Hn].
  rewrite bool_decide_false by done. by rewrite IH.
Qed.

Lemma record_names_cons (ep : endpoint) (l : list endpoint) :
  record_names (ep :: l) = ep !! "name" :: record_names l.
Proof. reflexivity. Qed.

Lemma record_names_upsert (new : endpoint) (l : list endpoint) :
  record_names (Cloudflare.upsert new l)
  = if bool_decide (new !! "name" ∈ record_names l)
    then record_names l else record_names l ++ [new !! "name"].
Proof.
  induction l as [|ep l IH]; [done|].
  rewrite record_names_cons.
  change (Cloudflare.upsert new (ep :: l))
    with (if bool_decide (ep !! "name" = new !! "name")
          then new :: l else ep :: Cloudflare.upsert new l).
  destruct (decide (ep !! "name" = new !! "name")) as [Hep|Hep].
  - rewrite (bool_decide_true _ Hep). rewrite bool_decide_true.
    + rewrite record_names_cons. by rewrite Hep.
    + rewrite Hep. apply elem_of_cons. by left.
  - rewrite (bool_decide_false _ Hep). rewrite record_names_cons, IH.
    destruct (decide (new !! "name" ∈ record_names l)) as [Hin|Hin].
    + rewrite !bool_decide_true; [done| |done]. apply elem_of_cons. by right.
    + rewrite !bool_decide_false; [done| |done].
      intros [?|?]%elem_of_cons; [by destruct Hep|done].
Qed.

Lemma upsert_elem (new : endpoint) (l : list endpoint) : new ∈ Cloudflare.upsert new l.
Proof.
  induction l as [|ep l IH]; simpl; [apply list_elem_of_here|].
  case_bool_decide; [apply list_elem_of_here|by apply list_elem_of_further].
Qed.

Lemma upsert_others (new ep : endpoint) (l : list endpoint) :
  ep !! "name" ≠ new !! "name" →
  ep ∈ Cloudflare.upsert new l ↔ ep ∈ l.
Proof.
  intros Hne. induction l as [|x l IH]; simpl.
  - rewrite list_elem_of_singleton. split; [by intros ->|by intros ?%elem_of_nil].
  - case_bool_decide as Hx.
    + rewrite !elem_of_cons. split; intros [->|?]; auto; [done|]. by rewrite Hx in Hne.
    + rewrite !elem_of_cons, IH. done.
Qed.

Lemma upsert_length (new : endpoint) (l : list endpoint) :
  length (Cloudflare.upsert new l)
  = if bool_decide (new !! "name" ∈ record_names l) then length l else S (length l).
Proof.
  rewrite <- (length_fmap (λ ep : endpoint, ep !! "name")).
  fold (record_names (Cloudflare.upsert new l)). rewrite record_names_upsert.
  unfold record_names. case_bool_decide; rewrite ?length_app, !length_fmap; simpl; lia.
Qed.

Lemma save_endpoint_run (E : env) (new : endpoint) (w : world) :
  Cloudflare._save_endpoint E new w
  = (Ret tt, if fs_writable E
             then set_endpoints_file (Some (Cloudflare.upsert new (stored w))) w else w).
Proof.
  unfold Cloudflare._save_endpoint, Cloudflare._load_endpoints, Cloudflare._save_all_endpoints.
  unfold bind, get, ret, modify, stored. by destruct (fs_writable E).
Qed.

Lemma remove_endpoint_run (E : env) (name : string) (w : world) :
  Cloudflare._remove_endpoint E name w
  = (Ret tt, if fs_writable E
             then set_endpoints_file
                    (Some (filter (λ ep, ep !! "name" ≠ Some name) (stored w))) w
             else w).
Proof.
  unfold Cloudflare._remove_endpoint, Cloudflare._load_endpoints, Cloudflare._save_all_endpoints.
  unfold bind, get, ret, modify, stored. by destruct (fs_writable E).
Qed.

(** X4 ([_save_endpoint]): on a writable file, saving a record keeps
    the names of the stored records distinct, stores the record, leaves
    the records of every other name as they were and adds at most one
    record. *)
Theorem save_endpoint_keeps_names_unique (E : env) (new : endpoint) (w w' : world)
    (o : outcome unit) :
  NoDup (record_names (stored w)) →
  fs_writable E = true →
  Cloudflare._save_endpoint E new w = (o, w') →
  o = Ret tt
  ∧ NoDup (record_names (stored w'))
  ∧ new ∈ stored w'
  ∧ (∀ ep, ep !! "name" ≠ new !! "name" → ep ∈ stored w' ↔ ep ∈ stored w)
  ∧ length (stored w')
    = (if bool_decide (new !! "name" ∈ record_names (stored w))
       then length (stored w) else S (length (stored w))).
Proof.
  intros Hnd Hw. rewrite save_endpoint_run, Hw. intros [= <- <-].
  change (stored (set_endpoints_file (Some (Cloudflare.upsert new (stored w))) w))
    with (Cloudflare.upsert new (stored w)).
  split_and!; [done| |apply upsert_elem|intros; by apply upsert_others|apply upsert_length].
  rewrite record_names_upsert. case_bool_decide as Hin; [done|].
  apply NoDup_app. split_and!; [done| |apply NoDup_singleton].
  intros x Hx ->%list_elem_of_singleton. done.
Qed.

(** X5 ([_save_endpoint], [_remove_endpoint]): saving a record under a
    name and then removing that name ends in the state that removing
    the name alone ends in, whether or not the file can be written. *)
Theorem save_then_remove_is_remove (E : env) (new : endpoint) (name : string) (w : world) :
  new !! "name" = Some name →
  (Cloudflare._save_endpoint E new ;; Cloudflare._remove_endpoint E name) w
  = Cloudflare._remove_endpoint E name w.
Proof.
  intros Hname. unfold bind at 1. rewrite save_endpoint_run, !remove_endpoint_run.
  destruct (fs_writable E); [|done].
  change (stored (set_endpoints_file (Some (Cloudflare.upsert new (stored w))) w))
    with (Cloudflare.upsert new (stored w)).
  unfold set_endpoints_file; simpl. do 3 f_equal.
  induction (stored w) as [|ep l IH]; simpl.
  - rewrite filter_cons_False, ?filter_nil; [done|]. rewrite Hname. by intros [].
  - case_bool_decide as Hep.
    + rewrite !filter_cons_False; [done| |]; rewrite ?Hep, Hname; by intros [].
    + rewrite !filter_cons, IH. done.
Qed.

(** ** What a method leaves in place *)

Section Preservation.
Context {S : Type} (R : S → S → Prop) `{!PreOrder R}.

Lemma pres_ret {A} (a : A) : preserves R (ret a).
Proof. intros s o s' [= _ <-]. reflexivity. Qed.

Lemma pres_raise {A} e : preserves R (raise (A:=A) e).
Proof. intros s o s' [= _ <-]. reflexivity. Qed.

Lemma pres_get : preserves R get.
Proof. intros s o s' [= _ <-]. reflexivity. Qed.

Lemma pres_modify (f : S → S) : (∀ s, R s (f s)) → preserves R (modify f).
Proof. intros Hf s o s' [= _ <-]. apply Hf. Qed.

Lemma pres_bind {A B} (m : ST S A) (k : A → ST S B) :
  preserves R m → (∀ a, preserves R (k a)) → preserves R (bind m k).
Proof.
  intros Hm Hk s o s'. unfold bind.
  destruct (m s) as [[a|e] s1] eqn:Hms; intros H.
  - transitivity s1; [by eapply Hm|by eapply Hk].
  - injection H as <- <-. by eapply Hm.
Qed.

Lemma pres_try {A} (m : ST S A) handles (h : exn → ST S A) :
  preserves R m → (∀ e, preserves R (h e)) → preserves R (try_except m handles h).
Proof.
  intros Hm Hh s o s'. unfold try_except.
  destruct (m s) as [[a|e] s1] eqn:Hms; intros H.
  - injection H as <- <-. by eapply Hm.
  - destruct (handles e).
    + transitivity s1; [by eapply Hm|by eapply Hh].
    + injection H as <- <-. by eapply Hm.
Qed.

Lemma pres_for_each {A B} (body : A → ST S (ctl B)) l :
  (∀ x, preserves R (body x)) → preserves R (for_each body l).
Proof.
  intros Hbody. induction l as [|x l IH]; simpl; [apply pres_ret|].
  apply pres_bind; [done|]. intros [|v]; [done|apply pres_ret].
Qed.

Lemma pres_for_acc {A T} (body : T → A → ST S T) l :
  (∀ t x, preserves R (body t x)) → ∀ t, preserves R (for_acc body l t).
Proof.
  intros Hbody. induction l as [|x l IH]; intros t; simpl; [apply pres_ret|].
  apply pres_bind; [done|]. done.
Qed.

End Preservation.

#[global] Instance log_adds_preorder (P : request → Prop) : PreOrder (log_adds P).
Proof.
  split.
  - intros w. exists []. by rewrite app_nil_r.
  - intros w1 w2 w3 (a & Ha & HPa) (b & Hb & HPb). exists (a ++ b).
    rewrite Hb, Ha, app_assoc. split; [done|]. by apply Forall_app.
Qed.

#[global] Instance keeps_preorder {X} (f : world → X) : PreOrder (keeps f).
Proof.
  split; [by intros w|]. intros w1 w2 w3 H1 H2. unfold keeps in *. congruence.
Qed.

Create HintDb frame.

Section RequestsSent.
Context (E : env) (P : request → Prop).

Lemma sent_same (w w' : world) : net_log w' = net_log w → log_adds P w w'.
Proof. intros H. exists []. by rewrite app_nil_r. Qed.

Lemma sent_http m u :
  P {| rq_meth := m; rq_url := u |} → preserves (log_adds P) (http_call E m u).
Proof.
  intros HP w o w'. unfold http_call.
  destruct (http E _ _); intros [= _ <-]; eexists [_]; split; simpl; auto.
Qed.

Lemma sent_input : preserves (log_adds P) (input_line E).
Proof.
  intros w o w'. unfold input_line.
  destruct (input E _); intros [= _ <-]; by apply sent_same.
Qed.

Lemma sent_print l : preserves (log_adds P) (print l).
Proof. apply pres_modify. intros w. by apply sent_same. Qed.

Lemma sent_raise_for_status r : preserves (log_adds P) (raise_for_status r).
Proof.
  unfold raise_for_status. case_match; [apply pres_raise|apply pres_ret]; apply _.
Qed.

Lemma sent_generate_worker_name : preserves (log_adds P) (Cloudflare._generate_worker_name E).
Proof. intros w o w' [= _ <-]. by apply sent_same. Qed.

End RequestsSent.

(** A method body is walked through statement by statement; what is
    left are the conditions on the requests it sends. *)
Ltac sent :=
  repeat first
    [ solve [auto with frame]
    | apply pres_ret; apply _ | apply pres_get; apply _ | apply pres_raise; apply _
    | apply sent_print | apply sent_input | apply sent_raise_for_status
    | apply sent_generate_worker_name
    | apply pres_modify; intros ?; by apply sent_same
    | apply sent_http
    | apply pres_bind; [apply _| |intros ?]
    | apply pres_try; [apply _| |intros ?]
    | apply pres_for_each; [apply _|intros ?]
    | apply pres_for_acc; [apply _|intros ? ?]
    | progress case_match ].

Section CloudflareRequests.
Context (E : env) (P : request → Prop).
Context (HP : ∀ m u, m ≠ DELETE → P {| rq_meth := m; rq_url := u |}).

Local Ltac sent' := sent; try (apply HP; discriminate).

Lemma sent_init_provider : preserves (log_adds P) (Cloudflare.init_provider E).
Proof. unfold Cloudflare.init_provider. sent'. Qed.
#[local] Hint Resolve sent_init_provider : frame.

Lemma sent_worker_subdomain : preserves (log_adds P) (Cloudflare.worker_subdomain E).
Proof. unfold Cloudflare.worker_subdomain. sent'. Qed.
#[local] Hint Resolve sent_worker_subdomain : frame.

Lemma sent_ensure_subdomain : preserves (log_adds P) (Cloudflare._ensure_subdomain E).
Proof. unfold Cloudflare._ensure_subdomain. sent'. Qed.
#[local] Hint Resolve sent_ensure_subdomain : frame.

Lemma sent_load_endpoints : preserves (log_adds P) Cloudflare._load_endpoints.
Proof. unfold Cloudflare._load_endpoints. sent'. Qed.
#[local] Hint Resolve sent_load_endpoints : frame.

Lemma sent_save_all_endpoints l : preserves (log_adds P) (Cloudflare._save_all_endpoints E l).
Proof. unfold Cloudflare._save_all_endpoints. sent'. Qed.
#[local] Hint Resolve sent_save_all_endpoints : frame.

Lemma sent_save_endpoint ep : preserves (log_adds P) (Cloudflare._save_endpoint E ep).
Proof. unfold Cloudflare._save_endpoint. sent'. Qed.
#[local] Hint Resolve sent_save_endpoint : frame.

Lemma sent_sync_endpoints : preserves (log_adds P) (Cloudflare.sync_endpoints E).
Proof. unfold Cloudflare.sync_endpoints. sent'. Qed.
#[local] Hint Resolve sent_sync_endpoints : frame.

Lemma sent_create : preserves (log_adds P) (Cloudflare.create E).
Proof.
  unfold Cloudflare.create, Cloudflare.requested_number, Cloudflare.create_attempt,
    Cloudflare.batch_summary, Cloudflare.any_created, Cloudflare.count_failure,
    Cloudflare.now.
  sent'.
Qed.

Lemma sent_list : preserves (log_adds P) (Cloudflare.list E).
Proof. unfold Cloudflare.list. sent'. Qed.

Lemma sent_status : preserves (log_adds P) (Cloudflare.status E).
Proof. unfold Cloudflare.status. sent'. Qed.

Lemma sent_usage : preserves (log_adds P) (Cloudflare.usage E).
Proof. unfold Cloudflare.usage. sent'. Qed.

End CloudflareRequests.

Section CloudflareDeletions.
Context (E : env).

Lemma sent_cleanup_one counts ep :
  preserves (log_adds (deletes_own_worker E)) (Cloudflare.cleanup_one E counts ep).
Proof.
  unfold Cloudflare.cleanup_one. sent.
  intros _. eexists. split; [reflexivity|done].
Qed.

Lemma not_delete_own m u : m ≠ DELETE → deletes_own_worker E {| rq_meth := m; rq_url := u |}.
Proof. intros Hm Hd. done. Qed.

(** X6 ([cleanup]): whatever the account, the terminal and the file
    hold, every DELETE request that [cleanup] sends is for a worker
    script whose name carries one of the tool's prefixes. *)
Theorem cleanup_deletes_only_tool_workers (w : world) :
  ∃ added, net_log (snd (Cloudflare.cleanup E w)) = net_log w ++ added
         ∧ Forall (deletes_own_worker E) added.
Proof.
  assert (preserves (log_adds (deletes_own_worker E)) (Cloudflare.cleanup E)) as H.
  { unfold Cloudflare.cleanup.
    pose proof (sent_init_provider E _ not_delete_own).
    pose proof (sent_sync_endpoints E _ not_delete_own).
    pose proof sent_cleanup_one.
    sent. }
  apply (H w (fst (Cloudflare.cleanup E w))). apply surjective_pairing.
Qed.

(** X7: the commands [create], [list], [status] and [usage] send no
    DELETE request. *)
Theorem only_delete_and_cleanup_send_deletions (w : world) :
  Forall (λ m : M bool,
            ∃ added, net_log (snd (m w)) = net_log w ++ added
                   ∧ Forall (λ rq, rq_meth rq ≠ DELETE) added)
         [Cloudflare.create E; Cloudflare.list E; Cloudflare.status E; Cloudflare.usage E].
Proof.
  assert (∀ m : M bool, preserves (log_adds (λ rq, rq_meth rq ≠ DELETE)) m →
            ∃ added, net_log (snd (m w)) = net_log w ++ added
                   ∧ Forall (λ rq, rq_meth rq ≠ DELETE) added) as H.
  { intros m Hm. apply (Hm w (fst (m w))). apply surjective_pairing. }
  repeat apply Forall_cons_2; [..|apply Forall_nil_2]; apply H;
    [apply sent_create|apply sent_list|apply sent_status|apply sent_usage]; done.
Qed.

End CloudflareDeletions.

Section CloudflareFurther.
Context (E : env).

(** X8 ([cleanup], declined): on a terminal, any answer other than
    [yes] (in any case of letters) makes [cleanup] give up: it does not
    return [True], the endpoints file is as before and nothing but the
    verification of the credentials was sent. *)
Theorem cleanup_declined_changes_nothing (w : world) (answer : string) :
  stdin_isatty E = true →
  input E (inputs_read w) = Ret answer →
  lower answer ≠ "yes" →
  fst (Cloudflare.cleanup E w) ≠ Ret true
  ∧ endpoints_file (snd (Cloudflare.cleanup E w)) = endpoints_file w
  ∧ (net_log (snd (Cloudflare.cleanup E w)) = net_log w
     ∨ net_log (snd (Cloudflare.cleanup E w)) = net_log w ++ [verify_request E]).
Proof.
  intros Htty Hin Hno.
  destruct (Cloudflare.cleanup E w) as [o w'] eqn:Hrun. simpl.
  revert Hrun. unfold Cloudflare.cleanup, bind at 1.
  destruct (Cloudflare.init_provider E w) as [[[]|e] w1] eqn:Hinit;
    destruct (init_provider_log _ _ _ _ Hinit) as (Hw1 & Hlog & _); simpl.
  - rewrite Htty. simpl. unfold bind at 1, input_line.
    rewrite Hw1. simpl. rewrite Hin.
    rewrite bool_decide_true by done.
    unfold print, bind, modify, ret. simpl. intros [= <- <-]. simpl. done.
  - unfold ret. intros [= <- <-]. rewrite Hw1. simpl. rewrite Hw1 in Hlog. done.
  - intros [= <- <-]. rewrite Hw1. simpl. rewrite Hw1 in Hlog. done.
Qed.

(** X9 ([sync_endpoints]): on a writable file, the list that
    [sync_endpoints] returns is what the endpoints file holds when it
    returns, whether the list came from the account or from the file. *)
Theorem sync_endpoints_returns_file_contents (w w' : world) (l : list endpoint) :
  fs_writable E = true →
  Cloudflare.sync_endpoints E w = (Ret l, w') →
  stored w' = l.
Proof.
  intros Hfs. unfold Cloudflare.sync_endpoints, try_except, bind at 1.
  destruct (Cloudflare._ensure_subdomain E w) as [[sub|e] w1] eqn:Hsub.
  - destruct (negb (truthy_opt sub)).
    + unfold Cloudflare._load_endpoints, bind, get, ret. simpl. intros [= <- <-]. reflexivity.
    + unfold bind, http_call, raise_for_status, Cloudflare._save_all_endpoints,
        Cloudflare._load_endpoints, modify, get, ret, raise, stored.
      rewrite Hfs. intros H.
      repeat (case_match; unfold bind in *; simplify_eq/=); done.
  - destruct (is_RequestException e); [|done].
    unfold Cloudflare._load_endpoints, bind, get, ret. simpl. intros [= <- <-]. reflexivity.
Qed.

(** X10 ([sync_endpoints], fallback): when no workers subdomain is
    available, or the request for the script listing raises a
    [RequestException] or is answered with an error status, the stored
    records are returned and the endpoints file is left as it was. *)
Theorem sync_endpoints_falls_back_to_file (w w1 : world) (sub : option string) :
  Cloudflare._ensure_subdomain E w = (Ret sub, w1) →
  truthy_opt sub = false
  ∨ http E (length (net_log w1))
      {| rq_meth := GET; rq_url := Cloudflare.scripts_url E |} = Exc RequestException
  ∨ (∃ r, http E (length (net_log w1))
            {| rq_meth := GET; rq_url := Cloudflare.scripts_url E |} = Resp r
          ∧ (400 ≤ status_code r < 600)%Z) →
  ∃ w2, Cloudflare.sync_endpoints E w = (Ret (stored w), w2)
      ∧ endpoints_file w2 = endpoints_file w.
Proof.
  intros Hsub Hfail.
  destruct (ensure_subdomain_frame _ _ _ _ Hsub) as (_ & _ & _ & Hfile & _).
  unfold Cloudflare.sync_endpoints, try_except, bind at 1. rewrite Hsub.
  destruct (truthy_opt sub) eqn:Ht; simpl.
  - destruct Hfail as [?|[Hexc|(r & Hr & Hst)]]; [done| |].
    + unfold bind at 1, http_call. rewrite Hexc. simpl.
      unfold Cloudflare._load_endpoints, bind, get, ret, stored. simpl.
      rewrite Hfile. eauto.
    + unfold bind at 1, http_call. rewrite Hr.
      unfold bind at 1, raise_for_status.
      replace ((400 <=? status_code r)%Z && (status_code r <? 600)%Z) with true
        by (symmetry; apply andb_true_iff; split; [apply Z.leb_le|apply Z.ltb_lt]; lia).
      unfold raise. simpl.
      unfold Cloudflare._load_endpoints, bind, get, ret, stored. simpl.
      rewrite Hfile. eauto.
  - unfold Cloudflare._load_endpoints, bind, get, ret, stored. rewrite Hfile. eauto.
Qed.

(** X11 ([_ensure_subdomain]): a subdomain that is returned is not
    empty and is cached on the object, so that the next call returns it
    without sending anything. *)
Theorem ensure_subdomain_caches_result (w w1 : world) (sub : string) :
  Cloudflare._ensure_subdomain E w = (Ret (Some sub), w1) →
  sub ≠ "" ∧ worker_subdomain_cache w1 = Some sub
  ∧ Cloudflare._ensure_subdomain E w1 = (Ret (Some sub), w1).
Proof.
  intros Hrun.
  assert (truthy sub = true ∧ worker_subdomain_cache w1 = Some sub) as [Ht Hc].
  { revert Hrun.
    unfold Cloudflare._ensure_subdomain, Cloudflare.worker_subdomain,
      Cloudflare.subdomain_of, try_except, bind, http_call, ret, get, modify. simpl.
    intros H. repeat (case_match; simplify_eq/=);
      repeat match goal with
             | H : _ && _ = true |- _ => apply andb_true_iff in H as [? ?]
             | H : ?x = Some _, H2 : truthy_opt ?x = _ |- _ =>
                 rewrite H in H2; simpl in H2
             end; unfold bind in *; simplify_eq/=; done. }
  split_and!; [|done|].
  - intros ->. done.
  - unfold Cloudflare._ensure_subdomain, Cloudflare.worker_subdomain, bind, get, ret.
    rewrite Hc. simpl. rewrite Ht. simpl. by rewrite Ht.
Qed.

(** X12 ([init_provider]): the credentials are accepted exactly when
    both are set and the account request is answered with status 200;
    with a credential missing nothing is sent. *)
Theorem init_provider_accepts_only_status_200 (w : world) :
  (fst (Cloudflare.init_provider E w) = Ret true
   ↔ truthy (api_token E) = true ∧ truthy (account_id E) = true
     ∧ ∃ r, http E (length (net_log w)) (verify_request E) = Resp r
            ∧ status_code r = 200%Z)
  ∧ (truthy (api_token E) && truthy (account_id E) = false →
     Cloudflare.init_provider E w = (Ret false, w)).
Proof.
  unfold Cloudflare.init_provider, verify_request.
  destruct (truthy (api_token E)), (truthy (account_id E)); simpl;
    try (split; [split; [done|by intros (? & ? & _)]|done]).
  split; [|done].
  unfold try_except, bind, http_call, ret.
  destruct (http E _ _) as [r|e]; simpl.
  - split.
    + intros H. split_and!; [done..|]. exists r. split; [done|].
      repeat (case_match; simplify_eq/=). lia.
    + intros (_ & _ & r' & [= <-] & Hr). rewrite Hr. done.
  - split; [|by intros (_ & _ & r' & ? & _)].
    destruct (is_RequestException e); done.
Qed.

(** X14 ([delete], failure): when the deletion request is answered
    with a status other than 200 and 404, or raises a
    [RequestException], [delete] returns [False] and the endpoints file
    keeps the record. *)
Theorem delete_failure_keeps_record (w w1 : world) (name : string) :
  api_id w = Some name → name ≠ "" →
  Cloudflare.init_provider E w = (Ret true, w1) →
  http E (length (net_log w1))
    {| rq_meth := DELETE; rq_url := Cloudflare.script_url E name |} = Exc RequestException
  ∨ (∃ r, http E (length (net_log w1))
            {| rq_meth := DELETE; rq_url := Cloudflare.script_url E name |} = Resp r
          ∧ status_code r ≠ 200%Z ∧ status_code r ≠ 404%Z) →
  ∃ w2, Cloudflare.delete E w = (Ret false, w2)
      ∧ endpoints_file w2 = endpoints_file w.
Proof.
  intros Hid Hne Hinit Hreply.
  destruct (init_provider_frame _ _ _ _ Hinit) as [log ->].
  unfold Cloudflare.delete, bind at 1. rewrite Hinit. simpl.
  unfold bind at 1, get at 1. simpl. rewrite Hid. simpl.
  rewrite truthy_true by done. simpl.
  unfold try_except, bind at 1, http_call. simpl in *.
  destruct Hreply as [->|(r & -> & H200 & H404)]; simpl; [eauto|].
  destruct (Z.eqb_spec (status_code r) 200); [done|].
  destruct (Z.eqb_spec (status_code r) 404); [done|]. simpl.
  unfold print, bind, modify, ret. simpl. eauto.
Qed.

End CloudflareFurther.

(** A statement that only touches other attributes keeps [f]. *)
Ltac kept_leaf :=
  intros ? ? ?;
  unfold http_call, input_line, raise_for_status, print, Cloudflare._generate_worker_name,
    Cloudflare._save_all_endpoints, Cloudflare.count_failure, modify, ret, raise, get;
  repeat case_match; intros; simplify_eq; reflexivity.

Ltac kept :=
  repeat first
    [ solve [auto with frame]
    | solve [kept_leaf]
    | apply pres_bind; [apply _| |intros ?]
    | apply pres_try; [apply _| |intros ?]
    | apply pres_for_each; [apply _|intros ?]
    | apply pres_for_acc; [apply _|intros ? ?]
    | progress case_match ].

Section CloudflareNumber.
Context (E : env).

Lemma create_keeps_number : preserves (keeps number) (Cloudflare.create E).
Proof.
  unfold Cloudflare.create, Cloudflare.init_provider, Cloudflare._ensure_subdomain,
    Cloudflare.worker_subdomain, Cloudflare.requested_number, Cloudflare.create_attempt,
    Cloudflare.batch_summary, Cloudflare.any_created, Cloudflare.now,
    Cloudflare._save_endpoint, Cloudflare._load_endpoints.
  kept.
Qed.

(** X13 ([_create_single_proxy]): when the single creation returns,
    the requested number of proxies is what it was before the call,
    whatever [create] did in between. *)
Theorem create_single_proxy_restores_number (w w' : world) (result : bool) :
  Cloudflare._create_single_proxy E w = (Ret result, w') →
  number w' = number w.
Proof.
  unfold Cloudflare._create_single_proxy, bind at 1, get at 1.
  destruct (number w) as [n|] eqn:Hn.
  - rewrite bool_decide_true by eauto.
    rewrite bind_modify. unfold bind.
    destruct (Cloudflare.create E _) as [[b|e] w1]; [|done].
    unfold modify, ret. by intros [= _ <-].
  - rewrite bool_decide_false by (by intros [? ?]).
    unfold bind, ret at 1.
    destruct (Cloudflare.create E w) as [[b|e] w1] eqn:Hc; [|done].
    unfold ret. intros [= _ <-].
    apply create_keeps_number in Hc. by rewrite Hc.
Qed.

End CloudflareNumber.

Section BaseFurther.
Context (E : env).

(** X15 ([proxytest]): whatever the provider's methods do, a test run
    that returns, or that ends in the handler of the outer [try],
    leaves the provider's [url] as it found it; only an exception
    outside [Exception] leaves the run without that. *)
Theorem proxytest_restores_url (create : M bool) (single : option (M bool))
    (get_last_url : M (option string)) (cleanup : M bool) (w : world) :
  (∃ result, fst (Base.proxytest E create single get_last_url cleanup w) = Ret result
             ∧ url (snd (Base.proxytest E create single get_last_url cleanup w)) = url w)
  ∨ ∃ e, fst (Base.proxytest E create single get_last_url cleanup w) = Raise e
         ∧ is_Exception e = false.
Proof.
  destruct (Base.proxytest E create single get_last_url cleanup w) as [o w'] eqn:Hrun.
  revert Hrun. unfold Base.proxytest, bind at 1, get at 1, try_except.
  destruct (Base.proxytest_body E _ _ _ _ w) as [[b|e] w1] eqn:Hbody.
  - intros [= <- <-]. left. exists b. split; [done|].
    revert Hbody. unfold Base.proxytest_body. rewrite bind_modify.
    intros Hbody.
    do 4 (apply bind_inv in Hbody as (? & ? & _ & Hbody)).
    revert Hbody. rewrite bind_modify. unfold ret. by intros [= _ <-].
  - destruct (is_Exception e) eqn:He.
    + unfold print, bind, modify, ret. simpl. intros [= <- <-]. left. eauto.
    + intros [= <- <-]. right. eauto.
Qed.

(** X16 ([execute]): a command outside the dispatch table runs no
    method of the provider: the result is [False] and the only effect
    is the message, the same for every provider. *)
Theorem execute_unknown_command_runs_nothing (P : Base.provider) (command : string)
    (w : world) :
  command ∉ ["create"; "list"; "delete"; "update"; "status"; "usage"; "cleanup"; "proxytest"] →
  Base.execute P (Some command) w = (Ret false, set_stdout (stdout w ++ [Unsupported]) w).
Proof.
  intros Hc. unfold Base.execute. simpl. unfold Base.command_map.
  repeat (apply not_elem_of_cons in Hc as [? Hc]; rewrite bool_decide_false by done).
  reflexivity.
Qed.

End BaseFurther.

Section CleanupLoop.
Context (E : env) (Hvendor : vendor_only E).

Lemma cleanup_one_counts (counts : nat * nat) (ep : endpoint) (w : world) :
  ∃ counts' w', Cloudflare.cleanup_one E counts ep w = (Ret counts', w')
    ∧ counts'.1 + counts'.2
      = counts.1 + counts.2
        + (if tool_owned ep then 1 else 0)
    ∧ stdout w' = stdout w.
Proof.
  unfold Cloudflare.cleanup_one, tool_owned.
  destruct (startswith_any _ _); [|unfold ret; eexists _, _; split_and!; eauto; lia].
  unfold try_except, bind, http_call, ret.
  destruct (http E _ _) as [r|e] eqn:Hr; simpl.
  - destruct (_ || _); eexists _, _; split_and!; eauto; simpl; lia.
  - apply Hvendor in Hr as ->. simpl. eexists _, _; split_and!; eauto; simpl; lia.
Qed.

Lemma cleanup_loop_counts (l : list endpoint) (counts : nat * nat) (w : world) :
  ∃ counts' w', for_acc (Cloudflare.cleanup_one E) l counts w = (Ret counts', w')
    ∧ counts'.1 + counts'.2 = counts.1 + counts.2 + length (filter (λ ep, tool_owned ep = true) l)
    ∧ stdout w' = stdout w.
Proof.
  revert counts w. induction l as [|ep l IH]; intros counts w; simpl.
  - unfold ret. eexists _, _. split_and!; eauto; simpl; lia.
  - destruct (cleanup_one_counts counts ep w) as (c1 & w1 & Hone & Hc1 & Hout1).
    destruct (IH c1 w1) as (c2 & w2 & Hrest & Hc2 & Hout2).
    exists c2, w2. unfold bind. rewrite Hone, Hrest. split_and!; [done| |congruence].
    rewrite Hc2, Hc1. destruct (tool_owned ep) eqn:Ht.
    + rewrite filter_cons_True by done. simpl. lia.
    + rewrite filter_cons_False by (by rewrite Ht). lia.
Qed.


End CleanupLoop.

(** ** The most recent record *)

Lemma ascii_compare_lt_trans (a b c : ascii) :
  Ascii.compare a b = Lt → Ascii.compare b c = Lt → Ascii.compare a c = Lt.
Proof. unfold Ascii.compare. rewrite !N.compare_lt_iff. lia. Qed.

Lemma string_ltb_trans (a b c : string) :
  String.ltb a b = true → String.ltb b c = true → String.ltb a c = true.
Proof.
  unfold String.ltb.
  revert b c. induction a as [|x a IH]; intros [|y b] [|z c]; simpl; try done.
  destruct (Ascii.compare x y) eqn:Hxy; try done.
  - apply Ascii.compare_eq_iff in Hxy as ->.
    destruct (Ascii.compare y z) eqn:Hyz; try done. apply IH.
  - destruct (Ascii.compare y z) eqn:Hyz; try done.
    + apply Ascii.compare_eq_iff in Hyz as ->. by rewrite Hxy.
    + by rewrite (ascii_compare_lt_trans _ _ _ Hxy Hyz).
Qed.

Lemma string_ltb_irrefl (a : string) : String.ltb a a = false.
Proof.
  unfold String.ltb. induction a as [|x a IH]; simpl; [done|].
  unfold Ascii.compare. by rewrite N.compare_refl.
Qed.

Lemma max_by_created_at_invariant (l seen : list endpoint) (best : endpoint) :
  best ∈ seen →
  (∀ ep, ep ∈ seen → String.ltb (Cloudflare.created_at_key best) (Cloudflare.created_at_key ep) = false) →
  Cloudflare.max_by_created_at best l ∈ seen ++ l
  ∧ ∀ ep, ep ∈ seen ++ l →
      String.ltb (Cloudflare.created_at_key (Cloudflare.max_by_created_at best l))
                 (Cloudflare.created_at_key ep) = false.
Proof.
  revert seen best. induction l as [|x l IH]; intros seen best Hin Hmax; simpl.
  - rewrite app_nil_r. done.
  - replace (seen ++ x :: l) with ((seen ++ [x]) ++ l) by by rewrite <- app_assoc.
    destruct (String.ltb (Cloudflare.created_at_key best) (Cloudflare.created_at_key x)) eqn:Hlt.
    + apply IH.
      * apply elem_of_app. right. apply list_elem_of_singleton. done.
      * intros ep [Hep| ->%list_elem_of_singleton]%elem_of_app.
        -- destruct (String.ltb (Cloudflare.created_at_key x) (Cloudflare.created_at_key ep)) eqn:Hx;
             [|done].
           rewrite <- (Hmax ep Hep). symmetry. by eapply string_ltb_trans.
        -- apply string_ltb_irrefl.
    + apply IH.
      * apply elem_of_app. by left.
      * intros ep [Hep| ->%list_elem_of_singleton]%elem_of_app; [by apply Hmax|done].
Qed.

(** X18 ([_get_last_created_proxy_url], the choice of the record): the
    record taken as the latest is one of the listed records, and no
    listed record has a later [created_at]. *)
Theorem max_by_created_at_is_latest (first : endpoint) (rest : list endpoint) :
  Cloudflare.max_by_created_at first rest ∈ first :: rest
  ∧ ∀ ep, ep ∈ first :: rest →
      String.ltb (Cloudflare.created_at_key (Cloudflare.max_by_created_at first rest))
                 (Cloudflare.created_at_key ep) = false.
Proof.
  apply (max_by_created_at_invariant rest [first] first).
  - apply list_elem_of_singleton. done.
  - intros ep ->%list_elem_of_singleton. apply string_ltb_irrefl.
Qed.

(** ** The Azure container pool *)

Section AzurePool.
Context (E : Azure.env).

Lemma deploy_container_adds target i s o s' :
  Azure.deploy_container E target i s = (o, s') →
  pool_grows target 1 s s'.
Proof.
  unfold Azure.deploy_container, Azure.get_unique_suffix, Azure.lift,
    try_except, bind, modify, ret, pool_grows.
  simpl. intros H.
  repeat (case_match; simplify_eq/=);
    first [ by (eexists [_]; split_and!; simpl; eauto)
          | by (exists []; rewrite ?app_nil_r; split_and!; simpl; eauto) ].
Qed.

Lemma pool_loop_adds target l : ∀ s o s',
  Azure.pool_loop E target l s = (o, s') →
  pool_grows target (length l) s s'.
Proof.
  unfold Azure.pool_loop.
  induction l as [|i l IH]; intros s o s'; simpl.
  - unfold ret. intros [= <- <-]. exists []. rewrite app_nil_r. done.
  - unfold bind at 1.
    destruct (Azure.deploy_container E target i s) as [[[]|e] s1] eqn:Hstep;
      apply deploy_container_adds in Hstep as (a & Ha & Hlen & Ht & Hu & Hp).
    + intros Hrest. apply IH in Hrest as (b & Hb & Hlenb & Htb & Hub & Hpb).
      exists (a ++ b). rewrite Hb, Ha, app_assoc, length_app.
      split_and!; [done|lia|by apply Forall_app|congruence..].
    + intros [= <- <-]. exists a. split_and!; [done|lia|done..].
Qed.

(** X19 (Azure [create]): a pool creation that returns [True] has
    deployed at least one and at most [pool_size] containers, all of
    them for the requested URL, and the stored pool is that pool. *)
Theorem azure_create_pool_within_size (s s' : Azure.state) :
  Azure.create E s = (Ret true, s') →
  Azure.container_pool s' ≠ []
  ∧ (Z.of_nat (length (Azure.container_pool s')) ≤ Azure.pool_size s)%Z
  ∧ Forall (λ c, Some (Azure.ci_target c) = Azure.url s) (Azure.container_pool s')
  ∧ Azure.profile_pool s' = Azure.container_pool s'.
Proof.
  intros Hrun. pose proof (azure_create_saves_after_loop _ _ _ Hrun) as Hsaved.
  revert Hrun. unfold Azure.create.
  destruct (negb (Azure.init_ok E)); [by unfold ret|].
  unfold bind at 1, get at 1. simpl.
  destruct (Azure.url s) as [u|] eqn:Hurl; [|by unfold ret].
  simpl. destruct (negb (truthy u)); [by unfold ret|].
  unfold try_except.
  match goal with
  | |- context [bind ?m ?k s] => destruct (bind m k s) as [[b|e] s1] eqn:Hbody
  end.
  2:{ destruct (is_Exception e); [by unfold ret|done]. }
  intros [= -> ->].
  apply bind_inv in Hbody as ([] & s1 & Hrg & Hbody).
  assert (s1 = s) as -> by (unfold Azure.lift in Hrg; by simplify_eq).
  rewrite bind_modify in Hbody.
  apply bind_inv in Hbody as ([] & s2 & Hloop & Hbody).
  apply bind_inv in Hbody as ([] & s3 & Hsave & Hbody).
  unfold bind at 1, get at 1 in Hbody.
  apply pool_loop_adds in Hloop as (added & Hadd & Hlen & Htarget & _).
  assert (Azure.container_pool s3 = added) as Hpool.
  { revert Hsave. unfold Azure.save_pool_config.
    destruct (Azure.config_writable E); [|by unfold raise].
    unfold modify. intros [= <-]. simpl. done. }
  destruct (Azure.container_pool s3) as [|c pool] eqn:Hp3; [by unfold ret in Hbody|].
  apply bind_inv in Hbody as ([] & s4 & Hclient & Hbody).
  unfold Azure.lift in Hclient. unfold ret in Hbody. simplify_eq.
  rewrite Hp3. split_and!; [done| | |by rewrite <- Hp3].
  - rewrite length_seq in Hlen. simpl in Hlen |- *. lia.
  - eapply Forall_impl; [done|]. intros c' Hc'. simpl in Hc'. by rewrite Hc'.
Qed.

End AzurePool.

Section AzureDelete.
Context (D : Azure.delete_env).

Context (Hexc : ∀ name e, Azure.begin_delete D name = Raise e → is_Exception e = true).

Lemma delete_pooled_step (deleted : nat) (c : Azure.container_info) (s : Azure.state) :
  ∃ deleted', Azure.delete_pooled D deleted c s = (Ret deleted', s)
              ∧ deleted' ≤ S deleted.
Proof.
  unfold Azure.delete_pooled, try_except, bind, Azure.lift, ret.
  destruct (Azure.begin_delete D (Azure.ci_name c)) as [[]|e] eqn:Hd; simpl.
  - eauto.
  - rewrite (Hexc _ _ Hd). eauto.
Qed.

Lemma delete_pooled_loop (pool : list Azure.container_info) :
  ∀ deleted s, ∃ deleted', for_acc (Azure.delete_pooled D) pool deleted s = (Ret deleted', s)
                           ∧ deleted' ≤ deleted + length pool.
Proof.
  induction pool as [|c pool IH]; intros deleted s; simpl.
  - exists deleted. split; [done|lia].
  - unfold bind at 1.
    destruct (delete_pooled_step deleted c s) as (d1 & -> & Hle1).
    destruct (IH d1 s) as (d' & -> & Hle). exists d'. split; [done|lia].
Qed.

(** X20 (Azure [delete] of the pool): with no id given, deleting a
    non-empty pool empties the pool in memory and in the profile and
    returns [True] whether or not the single deletions succeeded. *)
Theorem azure_delete_pool_forgets_pool (s : Azure.state) (api_id : option string) :
  Azure.init_ok (Azure.d_env D) = true →
  Azure.config_writable (Azure.d_env D) = true →
  truthy_opt api_id = false →
  Azure.container_pool s ≠ [] →
  Azure.delete D api_id s
  = (Ret true, Azure.set_profile_pool [] (Azure.set_container_pool [] s)).
Proof.
  intros Hinit Hw Hid Hpool. unfold Azure.delete. rewrite Hinit, Hid. simpl.
  unfold bind at 1, get at 1.
  destruct (Azure.container_pool s) as [|c pool] eqn:Hp; [done|].
  destruct (delete_pooled_loop (c :: pool) 0 s) as (d & Hloop & _).
  simpl in Hloop. unfold bind at 1. rewrite Hloop. rewrite bind_modify.
  unfold Azure.save_pool_config. rewrite Hw. rewrite bind_modify. reflexivity.
Qed.

(** X21 (Azure [delete] of one container): with an id given, nothing
    is changed in the pool, in memory or in the profile, whatever the
    result; the result is [True] only if a listed group has that name
    and its deletion went through. *)
Theorem azure_delete_named_keeps_pool (s : Azure.state) (name : string) :
  name ≠ "" →
  snd (Azure.delete D (Some name) s) = s
  ∧ (fst (Azure.delete D (Some name) s) = Ret true →
     ∃ groups g, Azure.list_groups D = Ret groups ∧ g ∈ groups
                 ∧ Azure.g_name g = name ∧ Azure.begin_delete D name = Ret tt).
Proof.
  intros Hname.
  destruct (Azure.delete D (Some name) s) as [o s'] eqn:Hrun. simpl.
  revert Hrun. unfold Azure.delete.
  destruct (negb (Azure.init_ok (Azure.d_env D))); [unfold ret; by intros [= <- <-]|].
  simpl. rewrite truthy_true by done.
  unfold try_except, bind at 1, Azure.lift.
  destruct (Azure.list_groups D) as [groups|e] eqn:Hl.
  2:{ destruct (is_Exception e); unfold ret; by intros [= <- <-]. }
  assert (∀ o s', for_each (Azure.delete_named D name) groups s = (o, s') →
            s' = s ∧ (o = Ret (Return true) →
                      ∃ g, g ∈ groups ∧ Azure.g_name g = name
                           ∧ Azure.begin_delete D name = Ret tt)) as Hsearch.
  { clear Hl. induction groups as [|g groups IH]; intros o1 s1; simpl.
    - unfold ret. intros [= <- <-]. done.
    - unfold bind at 1, Azure.delete_named.
      case_bool_decide as Hg.
      + destruct (Azure.g_resource_group g).
        * unfold bind at 1, Azure.lift.
          destruct (Azure.begin_delete D name) as [[]|e]; unfold ret.
          -- intros [= <- <-]. split; [done|]. intros _. exists g.
             split_and!; [apply list_elem_of_here|done..].
          -- intros [= <- <-]. done.
        * unfold raise. intros [= <- <-]. done.
      + unfold ret at 1. intros [Hs Ho]%IH. split; [done|].
        intros Htrue. destruct (Ho Htrue) as (g' & Hin & Hrest).
        exists g'. split; [by apply list_elem_of_further|done]. }
  unfold bind.
  destruct (for_each (Azure.delete_named D name) groups s) as [[c|e] s1] eqn:Hfor;
    destruct (Hsearch _ _ eq_refl) as [-> Hres].
  - destruct c as [|v]; unfold ret; intros [= <- <-]; (split; [done|]); [done|].
    intros [= ->]. destruct (Hres eq_refl) as (g & ? & ? & ?). by exists groups, g.
  - destruct (is_Exception e); unfold ret; by intros [= <- <-].
Qed.

End AzureDelete.

(** ** The rotation client *)

Lemma calls_succ {St A} (m : ST St A) (n : nat) (s : St) :
  calls m (S n) s = snd (m (calls m n s)).
Proof. revert s. induction n as [|n IH]; intros s; [done|]. simpl in *. by rewrite IH. Qed.

Lemma get_next_proxy_state (pool : list Azure.container_info) (k : nat) :
  pool ≠ [] →
  calls Azure.get_next_proxy k (Azure.new_rotating_proxy pool)
  = {| Azure.rp_pool := pool; Azure.current_index := k `mod` length pool |}.
Proof.
  intros Hpool.
  assert (length pool ≠ 0) as Hlen by (by destruct pool).
  induction k as [|k IH].
  - simpl. unfold Azure.new_rotating_proxy. f_equal. symmetry. by apply Nat.Div0.mod_0_l.
  - rewrite calls_succ, IH.
    unfold Azure.get_next_proxy, bind, get, modify, ret. simpl.
    destruct pool as [|c0 pool0] eqn:Hp; [done|]. rewrite <- Hp in *.
    destruct (lookup_lt_is_Some_2 pool (k `mod` length pool)) as [c Hc].
    { by apply Nat.mod_upper_bound. }
    rewrite Hc. simpl. f_equal.
    replace (S k) with (k + 1) by lia.
    by rewrite Nat.Div0.add_mod_idemp_l.
Qed.

(** X22 ([RotatingProxy.get_next_proxy]): on a non-empty pool the call
    number [k] (from 0) on a fresh object returns the URL of the
    container at position [k mod len(pool)]; it never runs past the end
    of the pool. *)
Theorem get_next_proxy_round_robin (pool : list Azure.container_info) (k : nat) :
  pool ≠ [] →
  ∃ c, pool !! (k `mod` length pool) = Some c
     ∧ fst (Azure.get_next_proxy (calls Azure.get_next_proxy k (Azure.new_rotating_proxy pool)))
       = Ret (Some (Azure.ci_url c)).
Proof.
  intros Hpool. rewrite get_next_proxy_state by done.
  assert (length pool ≠ 0) as Hlen by (by destruct pool).
  destruct (lookup_lt_is_Some_2 pool (k `mod` length pool)) as [c Hc].
  { by apply Nat.mod_upper_bound. }
  exists c. split; [done|].
  unfold Azure.get_next_proxy, bind, get, modify, ret. simpl.
  destruct pool; [done|]. by rewrite Hc.
Qed.

Lemma get_next_proxy_round_robin_run :
  let pool := [ {| Azure.ci_name := "a"; Azure.ci_ip := "20.0.0.1"; Azure.ci_fqdn := "a.example";
                   Azure.ci_url := "http://a.example"; Azure.ci_target := "https://example.local" |};
                {| Azure.ci_name := "b"; Azure.ci_ip := "20.0.0.2"; Azure.ci_fqdn := "b.example";
                   Azure.ci_url := "http://b.example"; Azure.ci_target := "https://example.local" |} ] in
  ∃ c, pool !! (3 `mod` length pool) = Some c
     ∧ fst (Azure.get_next_proxy (calls Azure.get_next_proxy 3 (Azure.new_rotating_proxy pool)))
       = Ret (Some (Azure.ci_url c)).
Proof. intros pool. apply (get_next_proxy_round_robin pool 3). done. Defined.

(** ** The command line *)

Section AllProviders.
Context {W : Type} (installed : string → bool) (sections : list string) (profile : string).
Context (instantiate : Cli.module_name → ST W bool).

Lemma run_configured_failed_mono (counts counts' : nat * nat) (p : string) (w w' : W) :
  Cli.run_configured installed sections profile instantiate counts p w = (Ret counts', w') → counts.2 ≤ counts'.2.
Proof.
  unfold Cli.run_configured.
  destruct (negb (Cli.configured sections profile p)); [unfold ret; intros [= <- _]; lia|].
  unfold try_except.
  destruct (Cli.get_provider_class installed p) as [[cls|]|e]; unfold bind, raise, ret.
  - destruct (instantiate cls w) as [[[]|e] w1]; try (intros [= <- _]; simpl; lia).
    destruct (is_Exception e); [intros [= <- _]; simpl; lia|done].
  - intros [= <- _]; simpl; lia.
  - destruct (is_Exception e); [intros [= <- _]; simpl; lia|done].
Qed.

Lemma run_configured_loop_mono (l : list string) (counts counts' : nat * nat) (w w' : W) :
  for_acc (Cli.run_configured installed sections profile instantiate) l counts w = (Ret counts', w') → counts.2 ≤ counts'.2.
Proof.
  revert counts w. induction l as [|p l IH]; intros counts w; simpl.
  - unfold ret. intros [= <- _]. lia.
  - intros (c1 & w1 & Hone & Hrest)%bind_inv.
    apply run_configured_failed_mono in Hone. apply IH in Hrest. lia.
Qed.

Lemma run_configured_broken (counts : nat * nat) (p : string) (w : W) :
  p = "gcp" ∨ p = "azure" →
  Cli.configured sections profile p = true →
  Cli.run_configured installed sections profile instantiate counts p w = (Ret (counts.1, S counts.2), w).
Proof.
  intros Hp Hc. unfold Cli.run_configured. rewrite Hc. simpl.
  unfold try_except, Cli.get_provider_class.
  destruct Hp as [-> | ->]; simpl.
  - destruct (Cli.check_provider_availability installed "gcp"); simpl; [|done].
    by rewrite load_gcp.
  - destruct (Cli.check_provider_availability installed "azure"); simpl; [|done].
    by rewrite load_azure.
Qed.

(** X23 ([execute_all_providers], [main]): with a profile section for
    gcp or for azure in the configuration, a run with [--all] never
    ends with status 0, whatever is installed and whatever the other
    providers do. *)
Theorem all_providers_fails_with_gcp_or_azure_configured (command : option string) (w : W) :
  Cli.configured sections profile "gcp" = true
  ∨ Cli.configured sections profile "azure" = true →
  fst (Cli.main_all installed sections profile instantiate command w) ≠ Ret 0%Z.
Proof.
  intros Hconf. unfold Cli.main_all.
  destruct (_ || _); [|by unfold ret].
  unfold Cli.execute_all_providers, Cli.all_providers, bind at 1.
  destruct (for_acc _ _ _ w) as [[counts|e] w'] eqn:Hloop; [|done].
  unfold ret. simpl.
  enough (0 < counts.2) as Hpos by (destruct (counts.2); [lia|done]).
  simpl in Hloop.
  apply bind_inv in Hloop as (c1 & w1 & _ & Hloop).
  apply bind_inv in Hloop as (c2 & w2 & Hgcp & Hloop).
  apply bind_inv in Hloop as (c3 & w3 & Hazure & Hloop).
  apply bind_inv in Hloop as (c4 & w4 & Hali & Hloop).
  unfold ret in Hloop. simplify_eq.
  pose proof (run_configured_failed_mono _ _ _ _ _ Hgcp).
  pose proof (run_configured_failed_mono _ _ _ _ _ Hazure).
  pose proof (run_configured_failed_mono _ _ _ _ _ Hali).
  destruct Hconf as [Hc|Hc].
  - rewrite run_configured_broken in Hgcp by auto. simplify_eq/=. lia.
  - rewrite run_configured_broken in Hazure by auto. simplify_eq/=. lia.
Qed.

(** X24 ([execute_all_providers]): with no section for any of the four
    providers, neither for the profile nor for [default], a run with
    [--all] imports and runs nothing and reports success. *)
Theorem all_providers_with_nothing_configured (w : W) :
  (∀ provider, provider ∈ Cli.all_providers →
               Cli.configured sections profile provider = false) →
  Cli.execute_all_providers installed sections profile instantiate w = (Ret 0%Z, w).
Proof.
  intros Hnone. unfold Cli.execute_all_providers.
  assert (∀ l counts, l ⊆ Cli.all_providers →
            for_acc (Cli.run_configured installed sections profile instantiate) l counts w = (Ret counts, w)) as Hloop.
  { induction l as [|p l IH]; intros counts Hl; simpl; [done|].
    unfold bind, Cli.run_configured at 1.
    rewrite Hnone by (apply Hl; apply list_elem_of_here). simpl.
    apply IH. intros x Hx. apply Hl. by apply list_elem_of_further. }
  unfold bind. by rewrite Hloop.
Qed.

End AllProviders.

(** X25 ([quick_cli]): the argument vector handed to [main] starts
    with the program name and contains every given argument in the
    given order; at most two flags are inserted, and none when the
    first word is not a quick command. *)
Theorem quick_cli_passes_arguments_through (args : list string) :
  args ≠ [] →
  ∃ new_args, Cli.quick_cli args = Some ("omniprox" :: new_args)
    ∧ args `sublist_of` new_args
    ∧ length new_args ≤ length args + 2
    ∧ ((∀ command, head args = Some command → command ∉ Cli.quick_commands) →
       new_args = args).
Proof.
  intros Hargs. destruct args as [|command rest]; [done|].
  unfold Cli.quick_cli. simpl.
  case_bool_decide as Hq.
  - destruct rest as [|a rest'].
    + eexists. split; [reflexivity|]. split_and!.
      * by apply sublist_cons, sublist_skip.
      * simpl. lia.
      * intros Hno. by destruct (Hno command).
    + repeat case_match; (eexists; split; [reflexivity|]); split_and!;
        try (simpl; lia); try (intros Hno; by destruct (Hno command)).
      * apply sublist_cons, sublist_skip, sublist_cons, sublist_skip. done.
      * apply sublist_cons, sublist_skip, sublist_cons, sublist_skip. done.
      * apply sublist_cons, sublist_skip. done.
  - eexists. split; [reflexivity|]. split_and!; [done|simpl; lia|done].
Qed.

Import FurtherExamples.

(** ** The further properties at concrete runs *)

Lemma save_endpoint_keeps_names_unique_run :
  let E := example_env accepting false (Ret "n") in
  let w := example_world None None 1 (Some [local_record 0; local_record 1]) in
  let w' := snd (Cloudflare._save_endpoint E (local_record 1) w) in
  Ret tt = Ret tt
  ∧ NoDup (record_names (stored w'))
  ∧ local_record 1 ∈ stored w'
  ∧ (∀ ep, ep !! "name" ≠ local_record 1 !! "name" → ep ∈ stored w' ↔ ep ∈ stored w)
  ∧ length (stored w')
    = (if bool_decide (local_record 1 !! "name" ∈ record_names (stored w))
       then length (stored w) else S (length (stored w))).
Proof.
  intros E w w'.
  apply (save_endpoint_keeps_names_unique E (local_record 1) w w' (Ret tt)).
  - apply (bool_decide_unpack (NoDup _)). vm_compute. reflexivity.
  - reflexivity.
  - reflexivity.
Defined.

Lemma save_then_remove_run :
  let E := example_env accepting false (Ret "n") in
  let w := example_world None None 1 (Some [local_record 0]) in
  (Cloudflare._save_endpoint E (local_record 1) ;; Cloudflare._remove_endpoint E "proxy-1") w
  = Cloudflare._remove_endpoint E "proxy-1" w.
Proof.
  intros E w. apply (save_then_remove_is_remove E (local_record 1) "proxy-1" w).
  reflexivity.
Defined.

Lemma cleanup_declined_run :
  let E := example_env accepting true (Ret "no") in
  let w := example_world None None 1 (Some [local_record 0]) in
  fst (Cloudflare.cleanup E w) ≠ Ret true
  ∧ endpoints_file (snd (Cloudflare.cleanup E w)) = endpoints_file w
  ∧ (net_log (snd (Cloudflare.cleanup E w)) = net_log w
     ∨ net_log (snd (Cloudflare.cleanup E w)) = net_log w ++ [verify_request E]).
Proof.
  intros E w. apply (cleanup_declined_changes_nothing E w "no").
  - reflexivity.
  - reflexivity.
  - vm_compute. discriminate.
Defined.

Lemma sync_endpoints_returns_file_contents_run :
  let E := list_env [nth_script 0] in
  let w := example_world None None 1 (Some [local_record 5]) in
  stored (snd (Cloudflare.sync_endpoints E w)) = [Cloudflare.remote_endpoint "edge" (nth_script 0)].
Proof.
  intros E w.
  apply (sync_endpoints_returns_file_contents E w (snd (Cloudflare.sync_endpoints E w))).
  - reflexivity.
  - vm_compute. reflexivity.
Defined.

Lemma sync_endpoints_falls_back_run :
  let E := example_env listing_refused false (Ret "n") in
  let w := example_world None None 1 (Some [local_record 5]) in
  ∃ w2, Cloudflare.sync_endpoints E w = (Ret (stored w), w2)
      ∧ endpoints_file w2 = endpoints_file w.
Proof.
  intros E w.
  apply (sync_endpoints_falls_back_to_file E w (snd (Cloudflare._ensure_subdomain E w))
           (Some "edge")).
  - reflexivity.
  - right. right. exists (plain 500 ""). split; [reflexivity|]. simpl. lia.
Defined.

Lemma ensure_subdomain_caches_run :
  let E := example_env accepting false (Ret "n") in
  let w := example_world None None 1 None in
  let w1 := snd (Cloudflare._ensure_subdomain E w) in
  "edge" ≠ "" ∧ worker_subdomain_cache w1 = Some "edge"
  ∧ Cloudflare._ensure_subdomain E w1 = (Ret (Some "edge"), w1).
Proof.
  intros E w w1. apply (ensure_subdomain_caches_result E w w1 "edge"). reflexivity.
Defined.

Lemma create_single_proxy_restores_number_run :
  let E := example_env accepting false (Ret "n") in
  let w := example_world (Some "https://example.local") None 5 None in
  number (snd (Cloudflare._create_single_proxy E w)) = number w.
Proof.
  intros E w.
  apply (create_single_proxy_restores_number E w (snd (Cloudflare._create_single_proxy E w)) true).
  vm_compute. reflexivity.
Defined.

Lemma delete_failure_keeps_record_run :
  let E := example_env deletion_refused false (Ret "n") in
  let w := example_world None (Some "proxy-7") 1 (Some [local_record 7]) in
  ∃ w2, Cloudflare.delete E w = (Ret false, w2)
      ∧ endpoints_file w2 = endpoints_file w.
Proof.
  intros E w.
  apply (delete_failure_keeps_record E w (snd (Cloudflare.init_provider E w)) "proxy-7").
  - reflexivity.
  - done.
  - reflexivity.
  - right. exists (plain 500 ""). split; [reflexivity|]. simpl. split; lia.
Defined.

Lemma execute_unknown_command_run :
  let E := example_env accepting false (Ret "n") in
  let w := example_world None None 1 None in
  Base.execute (Cloudflare.provider E) (Some "restart") w
  = (Ret false, set_stdout (stdout w ++ [Unsupported]) w).
Proof.
  intros E w. apply (execute_unknown_command_runs_nothing (Cloudflare.provider E) "restart" w).
  repeat (apply not_elem_of_cons; split; [done|]). apply not_elem_of_nil.
Defined.


Lemma azure_create_pool_within_size_run :
  let s := AzureExample.az_state in
  let s' := snd (Azure.create AzureExample.az_env s) in
  Azure.container_pool s' ≠ []
  ∧ (Z.of_nat (length (Azure.container_pool s')) ≤ Azure.pool_size s)%Z
  ∧ Forall (λ c, Some (Azure.ci_target c) = Azure.url s) (Azure.container_pool s')
  ∧ Azure.profile_pool s' = Azure.container_pool s'.
Proof.
  intros s s'. apply (azure_create_pool_within_size AzureExample.az_env s s').
  vm_compute. reflexivity.
Defined.

Lemma azure_delete_pool_forgets_pool_run :
  Azure.delete az_delete_env None az_pooled_state
  = (Ret true, Azure.set_profile_pool [] (Azure.set_container_pool [] az_pooled_state)).
Proof.
  apply (azure_delete_pool_forgets_pool az_delete_env).
  - intros name e [= <-]. reflexivity.
  - reflexivity.
  - reflexivity.
  - reflexivity.
  - done.
Defined.

Lemma azure_delete_named_keeps_pool_run :
  snd (Azure.delete az_delete_env (Some "omniprox-pool-1") az_pooled_state) = az_pooled_state
  ∧ (fst (Azure.delete az_delete_env (Some "omniprox-pool-1") az_pooled_state) = Ret true →
     ∃ groups g, Azure.list_groups az_delete_env = Ret groups ∧ g ∈ groups
                 ∧ Azure.g_name g = "omniprox-pool-1"
                 ∧ Azure.begin_delete az_delete_env "omniprox-pool-1" = Ret tt).
Proof.
  apply (azure_delete_named_keeps_pool az_delete_env az_pooled_state "omniprox-pool-1").
  done.
Defined.

Lemma all_providers_fails_run :
  fst (Cli.main_all (W := world) (λ _, true) ["cloudflare:default"; "gcp:default"] "default"
         (λ _, ret true) (Some "list") (example_world None None 1 None)) ≠ Ret 0%Z.
Proof.
  apply (all_providers_fails_with_gcp_or_azure_configured (W := world)).
  left. reflexivity.
Defined.

Lemma all_providers_with_nothing_configured_run :
  let w := example_world None None 1 None in
  Cli.execute_all_providers (W := world) (λ _, true) ["aliyun:default"] "work" (λ _, ret true) w
  = (Ret 0%Z, w).
Proof.
  intros w. apply (all_providers_with_nothing_configured (W := world)).
  intros provider Hp.
  repeat (apply elem_of_cons in Hp as [->|Hp]; [reflexivity|]).
  by apply elem_of_nil in Hp.
Defined.

Lemma quick_cli_run :
  ∃ new_args,
    Cli.quick_cli ["create"; "https://example.local"; "--provider"; "cf"]
    = Some ("omniprox" :: new_args)
    ∧ ["create"; "https://example.local"; "--provider"; "cf"] `sublist_of` new_args
    ∧ length new_args ≤ 4 + 2
    ∧ ((∀ command, head ["create"; "https://example.local"; "--provider"; "cf"] = Some command →
                   command ∉ Cli.quick_commands) →
       new_args = ["create"; "https://example.local"; "--provider"; "cf"]).
Proof.
  apply (quick_cli_passes_arguments_through
           ["create"; "https://example.local"; "--provider"; "cf"]).
  done.
Defined.
